(** * gevent_zeromq.core: green (cooperative) wrappers around pyzmq

    A shallow embedding of [src/gevent_zeromq/core.pyx]: the [_Context]
    factory, the [_Socket] wrapper with its two [AsyncResult] cells and its
    readiness watcher, and the [_Poller] loop.

    Python objects that are mutated and shared (the [AsyncResult] cells) live
    in a store indexed by allocation order; the attributes [__readable] and
    [__writable] hold references into it, so that replacing an attribute and
    resolving the object a suspended greenlet still holds are different
    things.  What the outside world answers (the native zmq calls, the hub
    firing the watcher, [select] waking up) is an explicit script. *)

From stdpp Require Import base list numbers strings.
From Stdlib Require Import ZArith Lia.
From Stdlib Require Import Floats.SpecFloat.

Local Open Scope Z_scope.

(** ** Constants imported by [from zmq import *] (values of zmq.h / errno.h) *)

Definition NOBLOCK : Z := 1.
Definition POLLIN  : Z := 1.
Definition POLLOUT : Z := 2.
Definition POLLERR : Z := 4.
Definition FD      : Z := 14.
Definition EVENTS  : Z := 15.
Definition EAGAIN  : Z := 11.
Definition ENOTSUP : Z := 95.

(** Python truth value of an int: [if flags & NOBLOCK:]. *)
Definition truthy (z : Z) : bool := negb (z =? 0).

(** ** Exceptions and results *)

(** Identity of a [gevent.Timeout] object ([t is not tout] compares these). *)
Abbreviation timer := nat.

Inductive exn : Type :=
| ZMQError (errno : Z) (msg : option string)
| ValueError (msg : string)
| TypeError (msg : string)
| OverflowError
| UnboundLocalError (name : string)
| Timeout (t : timer).

Inductive result (A : Type) : Type :=
| Ok (a : A)
| Err (e : exn).
Arguments Ok {A} a.
Arguments Err {A} e.

(** What a native zmq call answers: a value, or a failure that pyzmq raises
    as [ZMQError(errno)]. *)
Inductive native (A : Type) : Type :=
| Done (a : A)
| Fail (errno : Z) (msg : option string).
Arguments Done {A} a.
Arguments Fail {A} errno msg.

(** How a call that may suspend the greenlet ends.  [Suspended] is a greenlet
    that is still switched out when the script of outside events ends. *)
Inductive outcome (A : Type) : Type :=
| Returned (a : A)
| Raised (e : exn)
| Suspended.
Arguments Returned {A} a.
Arguments Raised {A} e.
Arguments Suspended {A}.

Definition exited {A} (o : outcome A) : bool :=
  match o with Suspended => false | _ => true end.

(** Values that flow through send and recv. *)
Inductive pyobj : Type :=
| PyNone
| PyBytes (s : string).

(** ** The scheduler's cell

    Modelled from the spec: the scheduler's single-value cell
    ([gevent.event.AsyncResult], a library outside [src/]): created pending,
    resolved with a value by [set()], with an error by [set_exception(exc)],
    awaited by [get()]. *)
Inductive cell : Type :=
| Pending
| Value
| Exception (e : exn).

Abbreviation loc := nat.
Abbreviation store := (list cell).

(** [AsyncResult()]: a new pending object; its reference is its index. *)
Definition alloc (h : store) : store * loc := (h ++ [Pending], length h).

Definition resolved (h : store) (l : loc) : bool :=
  match h !! l with
  | Some Value | Some (Exception _) => true
  | _ => false
  end.

Inductive direction : Type := Readable | Writable.

(** ** The watcher on the socket's FD

    gevent >= 1.0 gives a watcher with [stop()]; gevent < 1.0 gives an event
    with [cancel()] only, where [stop] raises [AttributeError]. *)
Inductive hub_api : Type := Gevent1 | Gevent0.

Record watcher : Type := mkWatcher {
  w_api : hub_api;
  w_fd : Z;
  w_active : bool
}.

(** ** What a method does, in order *)
Inductive event : Type :=
| NativeSend (data : pyobj) (flags : Z) (copy track : bool)
| NativeRecv (flags : Z) (copy track : bool)
| NativeGetsockopt (opt : Z)
| NativeClose
| CellNew (d : direction) (l : loc)
| CellSet (l : loc)
| CellSetException (l : loc) (e : exn)
| CellGet (l : loc)
| WatcherStart (api : hub_api) (fd : Z)
| StopMissing
| WatcherStop
| WatcherCancel.

Module _Socket.

(** The object: the native [closed] attribute, the cdef attributes, and the
    store of the cells ever created for it. *)
Record t : Type := mk {
  closed : bool;
  context : nat;
  socket_type : Z;
  cells : store;
  __readable : loc;
  __writable : loc;
  _state_event : option watcher
}.

Definition with_cells (s : t) (h : store) : t :=
  mk (closed s) (context s) (socket_type s) h (__readable s) (__writable s) (_state_event s).

(** [self.__writable.set()] and friends: the object the attribute refers to
    now is resolved; [set] on a resolved cell overwrites. *)
Definition set (l : loc) (s : t) : t := with_cells s (<[l := Value]> (cells s)).
Definition set_exception (l : loc) (e : exn) (s : t) : t :=
  with_cells s (<[l := Exception e]> (cells s)).

(** [self.__writable = AsyncResult()] / [self.__readable = AsyncResult()] *)
Definition replace (d : direction) (s : t) : t * loc :=
  let '(h, l) := alloc (cells s) in
  match d with
  | Writable => (mk (closed s) (context s) (socket_type s) h (__readable s) l (_state_event s), l)
  | Readable => (mk (closed s) (context s) (socket_type s) h l (__writable s) (_state_event s), l)
  end.

Definition attr (d : direction) (s : t) : loc :=
  match d with Readable => __readable s | Writable => __writable s end.

(** The socket object once [__setup_events] has run: two pending cells, and
    a started watcher on the descriptor [fd]. *)
Definition constructed (api : hub_api) (fd : Z) (ctx : nat) (ty : Z) : t :=
  mk false ctx ty [Pending; Pending] 0%nat 1%nat (Some (mkWatcher api fd true)).

(** [__setup_events], run by [__init__] on the freshly created native
    socket of context [ctx]: two new cells, then the read watcher on the
    socket's FD, by the API the installed hub offers.  [fd] is what
    [self.__getsockopt(FD)] answers: on either path it is evaluated once,
    before the watcher exists, and its [ZMQError] is not caught. *)
Definition __setup_events (api : hub_api) (fd : native Z) (ctx : nat) (ty : Z)
    : list event * result t :=
  let r := 0%nat in
  let w := 1%nat in
  match fd with
  | Done fd =>
      ([CellNew Readable r; CellNew Writable w; NativeGetsockopt FD; WatcherStart api fd],
       Ok (constructed api fd ctx ty))
  | Fail errno msg =>
      ([CellNew Readable r; CellNew Writable w; NativeGetsockopt FD],
       Err (ZMQError errno msg))
  end.

Definition __init__ := __setup_events.

(** [close]: the watcher goes first, then the native close. *)
Definition stop_watcher (w : watcher) : list event * watcher :=
  match w_api w with
  | Gevent1 => ([WatcherStop], mkWatcher (w_api w) (w_fd w) false)
  | Gevent0 => ([StopMissing; WatcherCancel], mkWatcher (w_api w) (w_fd w) false)
  end.

Definition native_close (s : t) : t :=
  mk true (context s) (socket_type s) (cells s) (__readable s) (__writable s) (_state_event s).

Definition close (s : t) : list event * t :=
  match negb (closed s), _state_event s with
  | true, Some w =>
      let '(tr, w') := stop_watcher w in
      (tr ++ [NativeClose],
       native_close (mk (closed s) (context s) (socket_type s) (cells s) (__readable s)
                        (__writable s) (Some w')))
  | _, _ => ([NativeClose], native_close s)
  end.

(** [__state_changed]: [q] is what [self.__getsockopt(EVENTS)] answers when
    it is asked. *)
Definition __state_changed (q : native Z) (s : t) : list event * t :=
  if closed s then
    ([CellSet (__writable s); CellSet (__readable s)],
     set (__readable s) (set (__writable s) s))
  else
    match q with
    | Fail errno msg =>
        let exc := ZMQError errno msg in
        ([NativeGetsockopt EVENTS;
          CellSetException (__writable s) exc; CellSetException (__readable s) exc],
         set_exception (__readable s) exc (set_exception (__writable s) exc s))
    | Done events =>
        let '(tr1, s1) :=
          if truthy (Z.land events POLLOUT)
          then ([CellSet (__writable s)], set (__writable s) s) else ([], s) in
        let '(tr2, s2) :=
          if truthy (Z.land events POLLIN)
          then ([CellSet (__readable s1)], set (__readable s1) s1) else ([], s1) in
        (NativeGetsockopt EVENTS :: tr1 ++ tr2, s2)
    end.

(** [__notify_waiters] *)
Definition __notify_waiters (s : t) : list event * t :=
  ([CellSet (__writable s); CellSet (__readable s)],
   set (__readable s) (set (__writable s) s)).

(** *** Suspension

    While a greenlet is switched out the hub runs other things that touch
    this socket: the watcher fires, or another greenlet works on the socket:
    it finishes an operation ([Notify]), it closes the socket, or its own
    send or recv meets EAGAIN and starts to wait ([Rewait]), which is
    [__notify_waiters()] followed by the replacement of the cell, as in the
    last two lines of the loops. *)
Inductive hub_event : Type :=
| Fire (q : native Z)
| Notify
| Rewait (d : direction)
| Closing.

Definition hub_step (ev : hub_event) (s : t) : t :=
  match ev with
  | Fire q => (__state_changed q s).2
  | Notify => (__notify_waiters s).2
  | Rewait d => (replace d (__notify_waiters s).2).1
  | Closing => (close s).2
  end.

(** [cell.get()] on the object [l]: returns or raises at once when the cell
    is resolved, otherwise the greenlet sleeps through the hub's events until
    one of them resolves that very object. *)
Fixpoint get (l : loc) (evs : list hub_event) (s : t) {struct evs} : t * outcome unit :=
  match cells s !! l with
  | Some Value => (s, Returned tt)
  | Some (Exception e) => (s, Raised e)
  | _ =>
      match evs with
      | [] => (s, Suspended)
      | ev :: evs' => get l evs' (hub_step ev s)
      end
  end.

Definition _wait_write (evs : list hub_event) (s : t) : list event * t * outcome unit :=
  let '(s1, l) := replace Writable s in
  let '(s2, o) := get (__writable s1) evs s1 in
  ([CellNew Writable l; CellGet (__writable s1)], s2, o).

Definition _wait_read (evs : list hub_event) (s : t) : list event * t * outcome unit :=
  let '(s1, l) := replace Readable s in
  let '(s2, o) := get (__readable s1) evs s1 in
  ([CellNew Readable l; CellGet (__readable s1)], s2, o).

(** *** send and recv

    The script of a blocking call: the answer [r] of the first native
    attempt, then, for each wait the loop enters, what the hub does while the
    greenlet sleeps and the answer of the attempt that follows. *)
Definition script := list (list hub_event * native pyobj).

Definition woken (rest : script) : list hub_event :=
  match rest with
  | [] => []
  | (evs, _) :: _ => evs
  end.

Fixpoint send_loop (data : pyobj) (flags : Z) (copy track : bool)
    (r : native pyobj) (rest : script) (s : t) {struct rest}
    : list event * t * outcome pyobj :=
  let call := NativeSend data flags copy track in
  match r with
  | Done v => ([call], s, Returned v)
  | Fail errno msg =>
      if negb (errno =? EAGAIN) then ([call], s, Raised (ZMQError errno msg))
      else
        let '(tr1, s1) := __notify_waiters s in
        let '(tr2, s2, o) := _wait_write (woken rest) s1 in
        match o, rest with
        | Returned _, (_, r') :: rest' =>
            let '(tr3, s3, o3) := send_loop data flags copy track r' rest' s2 in
            (call :: tr1 ++ tr2 ++ tr3, s3, o3)
        | Raised e, _ => (call :: tr1 ++ tr2, s2, Raised e)
        | _, _ => (call :: tr1 ++ tr2, s2, Suspended)
        end
  end.

Definition answer {A} (r : native A) : outcome A :=
  match r with
  | Done v => Returned v
  | Fail errno msg => Raised (ZMQError errno msg)
  end.

Definition __send (data : pyobj) (flags : Z) (copy track : bool)
    (r : native pyobj) (rest : script) (s : t) : list event * t * outcome pyobj :=
  if truthy (Z.land flags NOBLOCK) then
    ([NativeSend data flags copy track], s, answer r)
  else
    send_loop data (Z.lor flags NOBLOCK) copy track r rest s.

(** [try: ... finally: self.__notify_waiters()]: the finally clause runs
    when the body returns or raises. *)
Definition finally_notify {A} (body : list event * t * outcome A)
    : list event * t * outcome A :=
  let '(tr, s, o) := body in
  if exited o then
    let '(tr', s') := __notify_waiters s in (tr ++ tr', s', o)
  else (tr, s, o).

Definition send (data : pyobj) (flags : Z) (copy track : bool)
    (r : native pyobj) (rest : script) (s : t) : list event * t * outcome pyobj :=
  finally_notify (__send data flags copy track r rest s).

Fixpoint recv_loop (flags : Z) (copy track : bool)
    (r : native pyobj) (rest : script) (s : t) {struct rest}
    : list event * t * outcome pyobj :=
  let call := NativeRecv flags copy track in
  match r with
  | Done v => ([call], s, Returned v)
  | Fail errno msg =>
      if negb (errno =? EAGAIN) then ([call], s, Raised (ZMQError errno msg))
      else
        let '(tr1, s1) := __notify_waiters s in
        let '(tr2, s2, o) := _wait_read (woken rest) s1 in
        match o, rest with
        | Returned _, (_, r') :: rest' =>
            let '(tr3, s3, o3) := recv_loop flags copy track r' rest' s2 in
            (call :: tr1 ++ tr2 ++ tr3, s3, o3)
        | Raised e, _ => (call :: tr1 ++ tr2, s2, Raised e)
        | _, _ => (call :: tr1 ++ tr2, s2, Suspended)
        end
  end.

Definition __recv (flags : Z) (copy track : bool)
    (r : native pyobj) (rest : script) (s : t) : list event * t * outcome pyobj :=
  if truthy (Z.land flags NOBLOCK) then
    ([NativeRecv flags copy track], s, answer r)
  else
    recv_loop (Z.lor flags NOBLOCK) copy track r rest s.

Definition recv (flags : Z) (copy track : bool)
    (r : native pyobj) (rest : script) (s : t) : list event * t * outcome pyobj :=
  finally_notify (__recv flags copy track r rest s).

Definition __getsockopt (opt : Z) (r : native Z) (s : t)
    : list event * t * outcome Z :=
  ([NativeGetsockopt opt], s, answer r).

Definition getsockopt (opt : Z) (r : native Z) (s : t)
    : list event * t * outcome Z :=
  finally_notify (__getsockopt opt r s).

End _Socket.

(** ** _Context *)
Module _Context.

Record t : Type := mk {
  closed : bool;
  ident : nat
}.

(** What a [socket] method can hand out: the green [_Socket], or a plain
    socket of the wrapped library. *)
Inductive socket_object : Type :=
| Green (s : _Socket.t)
| Plain (ctx : nat) (socket_type : Z).

(** [int socket_type]: the argument is converted to a C int when the
    method is entered. *)
Definition c_int (z : Z) : bool := (-2147483648 <=? z) && (z <=? 2147483647).

(** [created] is how the creation of the native socket by the base class
    ends, [api] the hub's API and [fd] the answer of the FD query in
    [__setup_events]; what the construction raises is not caught. *)
Definition socket (self : t) (socket_type : Z) (api : hub_api)
    (created : native unit) (fd : native Z) : list event * result socket_object :=
  if negb (c_int socket_type) then ([], Err OverflowError)
  else if closed self then ([], Err (ZMQError ENOTSUP None))
  else
    match created with
    | Fail errno msg => ([], Err (ZMQError errno msg))
    | Done _ =>
        let '(tr, made) := _Socket.__init__ api fd (ident self) socket_type in
        (tr, match made with
             | Ok s => Ok (Green s)
             | Err e => Err e
             end)
    end.

End _Context.

(** ** _Poller *)
Module _Poller.

(** A Python number given as [timeout]: an int, or a float (IEEE binary64,
    as [spec_float]). *)
Inductive pynum : Type :=
| PyInt (z : Z)
| PyFloat (f : spec_float).

(** [int(x)]: the identity on ints; a float is truncated toward zero, and
    [int] raises on an infinity or a NaN. *)
Definition int (x : pynum) : result Z :=
  match x with
  | PyInt z => Ok z
  | PyFloat (S754_zero _) => Ok 0
  | PyFloat (S754_finite sg m e) =>
      let a := Z.shiftl (Z.pos m) e in
      Ok (if sg then - a else a)
  | PyFloat (S754_infinity _) => Err OverflowError
  | PyFloat S754_nan => Err (ValueError "cannot convert float NaN to integer")
  end.

(** The first lines of [poll]: [None] becomes -1, then [int], then every
    negative integer becomes -1. *)
Definition normalize (timeout : option pynum) : result Z :=
  let timeout := match timeout with None => PyInt (-1) | Some x => x end in
  match int timeout with
  | Err e => Err e
  | Ok timeout => Ok (if timeout <? 0 then -1 else timeout)
  end.

(** A registered item, with what resolving it to a descriptor gives. *)
Inductive item : Type :=
| GreenSocket (fd : native Z)
| IntFd (fd : Z)
| HasFileno (fd : option Z)
| Other.

Definition descriptor (socket : item) : result Z :=
  match socket with
  | GreenSocket (Done fd) => Ok fd
  | GreenSocket (Fail errno msg) => Err (ZMQError errno msg)
  | IntFd fd => Ok fd
  | HasFileno (Some fd) => Ok fd
  | HasFileno None => Err (ValueError "fileno() must return an valid integer fd")
  | Other =>
      Err (TypeError "Socket must be a 0MQ socket, an integer fd or have a fileno() method")
  end.

Abbreviation lists := (list Z * list Z * list Z)%type.

Definition add_if (flags bit fd : Z) (l : list Z) : list Z :=
  if truthy (Z.land flags bit) then l ++ [fd] else l.

(** [_get_descriptors]: the loop over [self.sockets.items()], carrying the
    three lists. *)
Fixpoint get_descriptors_from (items : list (item * Z)) (acc : lists) : result lists :=
  match items with
  | [] => Ok acc
  | (socket, flags) :: items' =>
      match descriptor socket with
      | Err e => Err e
      | Ok fd =>
          let '(rlist, wlist, xlist) := acc in
          get_descriptors_from items'
            (add_if flags POLLIN fd rlist,
             add_if flags POLLOUT fd wlist,
             add_if flags POLLERR fd xlist)
      end
  end.

Definition _get_descriptors (sockets : list (item * Z)) : result lists :=
  get_descriptors_from sockets ([], [], []).

(** What [poll] does, in order. *)
Inductive pevent : Type :=
| TimerStart (tout : timer) (milliseconds : Z)
| NativePoll (timeout : Z)
| GetDescriptors
| Select (rlist wlist xlist : list Z)
| TimerCancel (tout : timer).

(** The events the native poll reports: (index of the item, event mask). *)
Definition ready := list (nat * Z).

(** How [gevent.select.select] ends for the sleeping greenlet. *)
Inductive wake : Type :=
| Activity
| SelectFailed (errno : Z) (strerror : string)
| TimedOut (t : timer).

(** The script of a [poll]: the answer of the first native poll, then for
    each [select] the loop enters how it ends and the answer of the native
    poll that follows. *)
Definition script := list (wake * native ready).

(** [not rlist and not wlist and not xlist] *)
Definition unset (d : option lists) : bool :=
  match d with
  | None => true
  | Some ([], [], []) => true
  | Some _ => false
  end.

Fixpoint poll_loop (sockets : list (item * Z)) (timeout : Z) (d : option lists)
    (p : native ready) (rest : script) {struct rest} : list pevent * outcome ready :=
  match p with
  | Fail errno msg => ([NativePoll 0], Raised (ZMQError errno msg))
  | Done events =>
      if negb (bool_decide (events = [])) || (timeout =? 0) then
        ([NativePoll 0], Returned events)
      else
        let '(tr1, d1) :=
          if unset d then
            ([GetDescriptors], _get_descriptors sockets)
          else ([], match d with Some l => Ok l | None => Ok ([], [], []) end) in
        match d1 with
        | Err e => (NativePoll 0 :: tr1, Raised e)
        | Ok (rlist, wlist, xlist) =>
            let tr := NativePoll 0 :: tr1 ++ [Select rlist wlist xlist] in
            match rest with
            | [] => (tr, Suspended)
            | (Activity, p') :: rest' =>
                let '(tr', o) :=
                  poll_loop sockets timeout (Some (rlist, wlist, xlist)) p' rest' in
                (tr ++ tr', o)
            | (SelectFailed errno strerror, _) :: _ =>
                (tr, Raised (ZMQError errno (Some strerror)))
            | (TimedOut t, _) :: _ => (tr, Raised (Timeout t))
            end
        end
  end.

(** [poll]: [fresh] is the identity of the [Timeout] object that
    [gevent.Timeout.start_new] makes when it is called; the local [tout] is
    bound only then. *)
Definition poll (sockets : list (item * Z)) (timeout : option pynum) (fresh : timer)
    (p : native ready) (rest : script) : list pevent * outcome ready :=
  match normalize timeout with
  | Err e => ([], Raised e)
  | Ok timeout =>
      let tout := if 0 <? timeout then Some fresh else None in
      let start := match tout with Some t => [TimerStart t timeout] | None => [] end in
      let '(tr, o) := poll_loop sockets timeout None p rest in
      let o' :=
        match o with
        | Raised (Timeout t) =>
            match tout with
            | None => Raised (UnboundLocalError "tout")
            | Some mine => if bool_decide (t = mine) then Returned [] else Raised (Timeout t)
            end
        | _ => o
        end in
      let cancel :=
        match tout with
        | Some t => if exited o' then [TimerCancel t] else []
        | None => []
        end in
      (start ++ tr ++ cancel, o')
  end.

End _Poller.

(** * Properties *)

Import _Socket.

(** ** Vocabulary of the statements *)

(** The two attributes refer to two different cells of the store. *)
Definition wf (s : _Socket.t) : Prop :=
  __readable s <> __writable s /\
  (__readable s < length (cells s))%nat /\
  (__writable s < length (cells s))%nat.

(** A socket as [_Context.socket] makes it. *)
Definition fresh_socket : _Socket.t := constructed Gevent1 7 0%nat 1.

(** A socket of an old hub (gevent < 1.0). *)
Definition old_hub_socket : _Socket.t := constructed Gevent0 7 0%nat 1.





Definition is_query (e : event) : bool :=
  match e with NativeGetsockopt _ => true | _ => false end.

(** Between [before] and [after], a cell that was pending is resolved only
    if its direction is ready in the event mask [events]. *)
Definition resolves_only_ready (events : Z) (before after : _Socket.t) : Prop :=
  (cells before !! __readable before = Some Pending ->
   resolved (cells after) (__readable before) = true ->
   Z.testbit events 0 = true) /\
  (cells before !! __writable before = Some Pending ->
   resolved (cells after) (__writable before) = true ->
   Z.testbit events 1 = true).

(** Python's [timeout < 0] on the argument as given. *)
Definition negative (x : _Poller.pynum) : bool :=
  match x with
  | _Poller.PyInt z => z <? 0
  | _Poller.PyFloat f => SFltb f (S754_zero false)
  end.

(** The binary64 floats 0.5 and -0.5. *)
Definition half : spec_float := S754_finite false 4503599627370496 (-53).
Definition minus_half : spec_float := S754_finite true 4503599627370496 (-53).

Definition is_timer_event (e : _Poller.pevent) : bool :=
  match e with
  | _Poller.TimerStart _ _ | _Poller.TimerCancel _ => true
  | _ => false
  end.

(** The script of a send that meets EAGAIN [n] times, each wait being ended
    by the watcher firing with the socket writable, before the native send
    answers [v]. *)
Definition attempt (n : nat) (v : pyobj) : native pyobj :=
  match n with
  | O => Done v
  | S _ => Fail EAGAIN None
  end.

Fixpoint retries (n : nat) (v : pyobj) : _Socket.script :=
  match n with
  | O => []
  | S n' => ([Fire (Done POLLOUT)], attempt n' v) :: retries n' v
  end.

Definition is_native_send (e : event) : bool :=
  match e with NativeSend _ _ _ _ => true | _ => false end.

(** The native call of a trace event is non-blocking: its flags hold
    NOBLOCK. *)
Definition nonblocking_call (e : event) : bool :=
  match e with
  | NativeSend _ flags _ _ => truthy (Z.land flags NOBLOCK)
  | NativeRecv flags _ _ => truthy (Z.land flags NOBLOCK)
  | _ => true
  end.

Definition is_native_recv (e : event) : bool :=
  match e with NativeRecv _ _ _ => true | _ => false end.

(** The script of a recv that meets EAGAIN [n] times, each wait being ended
    by the watcher firing with the socket readable. *)
Fixpoint retries_read (n : nat) (v : pyobj) : _Socket.script :=
  match n with
  | O => []
  | S n' => ([Fire (Done POLLIN)], attempt n' v) :: retries_read n' v
  end.

(** Resolving every registered item in registration order, stopping at the
    first that fails: the descriptors with their flags. *)
Fixpoint resolve_all (items : list (_Poller.item * Z)) : result (list (Z * Z)) :=
  match items with
  | [] => Ok []
  | (socket, flags) :: items' =>
      match _Poller.descriptor socket with
      | Err e => Err e
      | Ok fd =>
          match resolve_all items' with
          | Err e => Err e
          | Ok l => Ok ((fd, flags) :: l)
          end
      end
  end.

(** The descriptors registered with interest [bit], in registration order. *)
Definition with_bit (bit : Z) (l : list (Z * Z)) : list Z :=
  map fst (List.filter (fun p => truthy (Z.land p.2 bit)) l).


Definition is_native_poll (e : _Poller.pevent) : bool :=
  match e with _Poller.NativePoll _ => true | _ => false end.

Definition is_select (e : _Poller.pevent) : bool :=
  match e with _Poller.Select _ _ _ => true | _ => false end.

Definition is_timer_start (e : _Poller.pevent) : bool :=
  match e with _Poller.TimerStart _ _ => true | _ => false end.

(** The script of a poll that finds nothing ready [n] times, each [select]
    being ended by activity on a descriptor, before the native poll reports
    [events]. *)
Definition first_poll (n : nat) (events : _Poller.ready) : native _Poller.ready :=
  match n with
  | O => Done events
  | S _ => Done []
  end.

Fixpoint wakeups (n : nat) (events : _Poller.ready) : _Poller.script :=
  match n with
  | O => []
  | S n' => (_Poller.Activity, first_poll n' events) :: wakeups n' events
  end.

(** ** Bits *)

Lemma land_pow2 (m n : Z) :
  0 <= n -> Z.land m (2 ^ n) = if Z.testbit m n then 2 ^ n else 0.
Proof.
  intros Hn. apply Z.bits_inj'. intros k Hk.
  rewrite Z.land_spec, Z.pow2_bits_eqb by lia.
  destruct (Z.eqb_spec n k) as [->|Hne].
  - destruct (Z.testbit m k) eqn:E; simpl.
    + now rewrite Z.pow2_bits_true.
    + now rewrite Z.bits_0.
  - rewrite andb_false_r.
    destruct (Z.testbit m n).
    + rewrite Z.pow2_bits_false; [reflexivity | lia].
    + now rewrite Z.bits_0.
Qed.

Lemma truthy_land_pow2 (m n : Z) :
  0 <= n -> truthy (Z.land m (2 ^ n)) = Z.testbit m n.
Proof.
  intros Hn. rewrite land_pow2 by assumption. unfold truthy.
  destruct (Z.testbit m n); [|reflexivity].
  destruct (Z.eqb_spec (2 ^ n) 0) as [E|]; [|reflexivity].
  pose proof (Z.pow_pos_nonneg 2 n). lia.
Qed.

Lemma truthy_POLLIN (m : Z) : truthy (Z.land m POLLIN) = Z.testbit m 0.
Proof. exact (truthy_land_pow2 m 0 ltac:(lia)). Qed.

Lemma truthy_POLLOUT (m : Z) : truthy (Z.land m POLLOUT) = Z.testbit m 1.
Proof. exact (truthy_land_pow2 m 1 ltac:(lia)). Qed.

Lemma truthy_NOBLOCK_added (flags : Z) :
  truthy (Z.land (Z.lor flags NOBLOCK) NOBLOCK) = true.
Proof.
  change NOBLOCK with (2 ^ 0). rewrite truthy_land_pow2 by lia.
  rewrite Z.lor_spec. change (2 ^ 0) with 1.
  now rewrite orb_true_r.
Qed.

(** ** The store *)

Lemma readable_set (l : loc) (s : _Socket.t) : __readable (set l s) = __readable s.
Proof. reflexivity. Qed.

Lemma writable_set (l : loc) (s : _Socket.t) : __writable (set l s) = __writable s.
Proof. reflexivity. Qed.

Lemma length_set (l : loc) (s : _Socket.t) :
  length (cells (set l s)) = length (cells s).
Proof. apply length_insert. Qed.

Lemma length_set_exception (l : loc) (e : exn) (s : _Socket.t) :
  length (cells (set_exception l e s)) = length (cells s).
Proof. apply length_insert. Qed.

Lemma lookup_set_eq (l : loc) (s : _Socket.t) :
  (l < length (cells s))%nat -> cells (set l s) !! l = Some Value.
Proof. apply list_lookup_insert_eq. Qed.

Lemma lookup_set_ne (l l' : loc) (s : _Socket.t) :
  l <> l' -> cells (set l s) !! l' = cells s !! l'.
Proof. apply list_lookup_insert_ne. Qed.

Lemma lookup_set_exception_eq (l : loc) (e : exn) (s : _Socket.t) :
  (l < length (cells s))%nat -> cells (set_exception l e s) !! l = Some (Exception e).
Proof. apply list_lookup_insert_eq. Qed.

Lemma lookup_set_exception_ne (l l' : loc) (e : exn) (s : _Socket.t) :
  l <> l' -> cells (set_exception l e s) !! l' = cells s !! l'.
Proof. apply list_lookup_insert_ne. Qed.

(** Resolving both cells, in the order of the source: writable, then
    readable. *)
Lemma set_both (s : _Socket.t) :
  wf s ->
  cells (set (__readable s) (set (__writable s) s)) !! __readable s = Some Value /\
  cells (set (__readable s) (set (__writable s) s)) !! __writable s = Some Value.
Proof.
  intros (Hne & Hr & Hw). split.
  - apply lookup_set_eq. now rewrite length_set.
  - rewrite lookup_set_ne by assumption. now apply lookup_set_eq.
Qed.

Lemma set_exception_both (e : exn) (s : _Socket.t) :
  wf s ->
  let s' := set_exception (__readable s) e (set_exception (__writable s) e s) in
  cells s' !! __readable s = Some (Exception e) /\
  cells s' !! __writable s = Some (Exception e).
Proof.
  intros (Hne & Hr & Hw). split.
  - apply lookup_set_exception_eq. now rewrite length_set_exception.
  - rewrite lookup_set_exception_ne by assumption.
    now apply lookup_set_exception_eq.
Qed.

Lemma notify_cells (s : _Socket.t) :
  wf s ->
  cells (__notify_waiters s).2 !! __readable s = Some Value /\
  cells (__notify_waiters s).2 !! __writable s = Some Value.
Proof. apply set_both. Qed.

(** ** The invariant [wf] *)

Lemma wf_constructed api fd ctx ty : wf (constructed api fd ctx ty).
Proof. repeat split; simpl; [congruence | lia | lia]. Qed.

Lemma wf_init api fd ctx ty s :
  (__init__ api fd ctx ty).2 = Ok s -> wf s.
Proof.
  destruct fd as [fd|errno msg]; cbn; [|discriminate].
  intros [= <-]. apply wf_constructed.
Qed.

Lemma wf_set (l : loc) (s : _Socket.t) : wf s -> wf (set l s).
Proof. unfold wf. now rewrite readable_set, writable_set, length_set. Qed.

Lemma wf_set_exception (l : loc) (e : exn) (s : _Socket.t) :
  wf s -> wf (set_exception l e s).
Proof.
  unfold wf. rewrite length_set_exception. trivial.
Qed.

Lemma wf_notify (s : _Socket.t) : wf s -> wf (__notify_waiters s).2.
Proof. intros H. unfold __notify_waiters. cbn [snd]. now do 2 apply wf_set. Qed.

Lemma wf_close (s : _Socket.t) : wf s -> wf (close s).2.
Proof.
  intros H. unfold close.
  destruct (negb (closed s)), (_state_event s) as [w|]; try exact H.
  unfold stop_watcher. destruct (w_api w); exact H.
Qed.

Lemma wf_replace (d : direction) (s : _Socket.t) : wf s -> wf (replace d s).1.
Proof.
  intros (Hne & Hr & Hw). unfold wf, replace, alloc.
  destruct d; cbn [fst __readable __writable cells];
    rewrite length_app; cbn [length]; repeat split; lia.
Qed.

Lemma wf_state_changed (q : native Z) (s : _Socket.t) :
  wf s -> wf (__state_changed q s).2.
Proof.
  intros H. unfold __state_changed.
  destruct (closed s); [|destruct q as [events|errno msg]].
  - cbn [snd]. now do 2 apply wf_set.
  - destruct (truthy (Z.land events POLLOUT)), (truthy (Z.land events POLLIN));
      cbn [fst snd]; repeat apply wf_set; exact H.
  - cbn [snd]. now do 2 apply wf_set_exception.
Qed.

Lemma wf_hub_step (ev : hub_event) (s : _Socket.t) : wf s -> wf (hub_step ev s).
Proof.
  intros H. destruct ev; cbn [hub_step].
  - now apply wf_state_changed.
  - now apply wf_notify.
  - now apply wf_replace, wf_notify.
  - now apply wf_close.
Qed.

Lemma wf_get (l : loc) (evs : list hub_event) :
  forall s, wf s -> wf (get l evs s).1.
Proof.
  induction evs as [|ev evs IH]; intros s H; cbn [get].
  - now destruct (cells s !! l) as [[]|].
  - destruct (cells s !! l) as [[]|]; try exact H;
      apply IH; now apply wf_hub_step.
Qed.

(** ** The readiness-change handler *)

(** C5. The readiness-change handler: on a closed socket it resolves both
    cells with a value and returns without querying; when the query of the
    event mask fails it resolves both cells with that very error; otherwise
    the readable cell is resolved exactly when bit POLLIN (bit 0) of the mask
    is set and the writable cell exactly when bit POLLOUT (bit 1) is set, a
    cell whose bit is clear being left as it was. *)
Theorem state_changed_resolves (q : native Z) (s : _Socket.t) :
  wf s ->
  let tr := (__state_changed q s).1 in
  let s' := (__state_changed q s).2 in
  let r := __readable s in
  let w := __writable s in
  (closed s = true ->
     tr = [CellSet w; CellSet r] /\
     cells s' !! r = Some Value /\ cells s' !! w = Some Value) /\
  (closed s = false -> forall errno msg, q = Fail errno msg ->
     cells s' !! r = Some (Exception (ZMQError errno msg)) /\
     cells s' !! w = Some (Exception (ZMQError errno msg))) /\
  (closed s = false -> forall events, q = Done events ->
     cells s' !! r = (if Z.testbit events 0 then Some Value else cells s !! r) /\
     cells s' !! w = (if Z.testbit events 1 then Some Value else cells s !! w)).
Proof.
  intros Hwf. pose proof Hwf as (Hne & Hr & Hw).
  cbn zeta. unfold __state_changed.
  split; [|split].
  - intros ->. split; [reflexivity|]. now apply set_both.
  - intros -> errno msg ->. now apply (set_exception_both (ZMQError errno msg)).
  - intros -> events ->.
    rewrite truthy_POLLOUT, truthy_POLLIN.
    destruct (Z.testbit events 1), (Z.testbit events 0);
      cbn [fst snd]; rewrite ?readable_set.
    + now apply set_both.
    + split; [apply lookup_set_ne; congruence | now apply lookup_set_eq].
    + split; [now apply lookup_set_eq | now apply lookup_set_ne].
    + split; reflexivity.
Qed.

Lemma state_changed_resolves_witness :
  cells (__state_changed (Done POLLOUT) fresh_socket).2 !! __readable fresh_socket
    = Some Pending /\
  cells (__state_changed (Done POLLOUT) fresh_socket).2 !! __writable fresh_socket
    = Some Value.
Proof.
  assert (Hwf : wf fresh_socket) by (repeat split; simpl; [congruence | lia | lia]).
  exact (proj2 (proj2 (state_changed_resolves (Done POLLOUT) fresh_socket Hwf))
           eq_refl POLLOUT eq_refl).
Defined.

(** ** close *)

Lemma closed_after_close (s : _Socket.t) : closed (close s).2 = true.
Proof.
  unfold close. destruct (negb (closed s)), (_state_event s) as [w|];
    try reflexivity.
  unfold stop_watcher. now destruct (w_api w).
Qed.

(** C6. Closing an open socket that has a watcher stops the watcher (by
    [stop()], or by [cancel()] after [stop] was found missing on an old hub)
    and only then calls the native close; closing a closed socket calls the
    native close alone and leaves the watcher as it is, so the second of two
    closes does no teardown. *)
Theorem close_stops_watcher_first (s : _Socket.t) :
  (closed s = false -> forall w, _state_event s = Some w ->
     (close s).1 =
       match w_api w with
       | Gevent1 => [WatcherStop; NativeClose]
       | Gevent0 => [StopMissing; WatcherCancel; NativeClose]
       end /\
     _state_event (close s).2 = Some (mkWatcher (w_api w) (w_fd w) false) /\
     closed (close s).2 = true) /\
  (closed s = true ->
     (close s).1 = [NativeClose] /\
     _state_event (close s).2 = _state_event s) /\
  (close (close s).2).1 = [NativeClose].
Proof.
  split; [|split].
  - intros Hc w Hw. unfold close, stop_watcher. rewrite Hc, Hw. cbn [negb].
    destruct (w_api w); repeat split; reflexivity.
  - intros Hc. unfold close. rewrite Hc. split; reflexivity.
  - pose proof (closed_after_close s) as Hc.
    unfold close at 1. rewrite Hc. reflexivity.
Qed.

Lemma close_stops_watcher_first_witness :
  (close fresh_socket).1 = [WatcherStop; NativeClose] /\
  (close old_hub_socket).1 = [StopMissing; WatcherCancel; NativeClose] /\
  (close (close fresh_socket).2).1 = [NativeClose].
Proof.
  split; [|split].
  - exact (proj1 (proj1 (close_stops_watcher_first fresh_socket)
                    eq_refl (mkWatcher Gevent1 7 true) eq_refl)).
  - exact (proj1 (proj1 (close_stops_watcher_first old_hub_socket)
                    eq_refl (mkWatcher Gevent0 7 true) eq_refl)).
  - exact (proj1 (proj1 (proj2 (close_stops_watcher_first (close fresh_socket).2))
                    eq_refl)).
Defined.

(** ** The context *)

(** C9 (as amended). For a socket type that is a C int, [_Context.socket]
    raises [ZMQError(ENOTSUP)] when the context is closed; otherwise it
    constructs a green [_Socket] of this context and of the requested type
    (open, with two pending cells and a started watcher) and returns it, or
    raises the [ZMQError] with which the construction failed, be it the
    creation of the native socket or the FD query of [__setup_events].  It
    never returns a plain socket. *)
Theorem context_socket_green (self : _Context.t) (ty : Z) (api : hub_api)
    (created : native unit) (fd : native Z) :
  (_Context.c_int ty = true -> _Context.closed self = true ->
     _Context.socket self ty api created fd = ([], Err (ZMQError ENOTSUP None))) /\
  (_Context.c_int ty = true -> _Context.closed self = false ->
     forall u fdv, created = Done u -> fd = Done fdv ->
     exists s, (_Context.socket self ty api created fd).2 = Ok (_Context.Green s) /\
       context s = _Context.ident self /\ socket_type s = ty /\
       closed s = false /\ wf s /\
       cells s !! __readable s = Some Pending /\
       cells s !! __writable s = Some Pending /\
       _state_event s = Some (mkWatcher api fdv true)) /\
  (_Context.c_int ty = true -> _Context.closed self = false ->
     forall errno msg, created = Fail errno msg ->
     _Context.socket self ty api created fd = ([], Err (ZMQError errno msg))) /\
  (_Context.c_int ty = true -> _Context.closed self = false ->
     forall u errno msg, created = Done u -> fd = Fail errno msg ->
     (_Context.socket self ty api created fd).2 = Err (ZMQError errno msg)) /\
  (_Context.c_int ty = false ->
     _Context.socket self ty api created fd = ([], Err OverflowError)) /\
  (forall ctx ty', (_Context.socket self ty api created fd).2
                     <> Ok (_Context.Plain ctx ty')).
Proof.
  unfold _Context.socket. split; [|split; [|split; [|split; [|split]]]].
  - now intros -> ->.
  - intros -> -> u fdv -> ->. eexists. split; [reflexivity|].
    repeat split; simpl; (congruence || lia).
  - now intros -> -> errno msg ->.
  - now intros -> -> u errno msg -> ->.
  - now intros ->.
  - intros ctx ty'. destruct (negb (_Context.c_int ty)); [discriminate|].
    destruct (_Context.closed self); [discriminate|].
    destruct created as [u|errno msg]; [|discriminate].
    destruct fd as [fdv|errno msg]; discriminate.
Qed.

Lemma context_socket_green_witness :
  _Context.socket (_Context.mk true 0%nat) 1 Gevent1 (Done tt) (Done 7)
    = ([], Err (ZMQError ENOTSUP None)) /\
  (exists s, (_Context.socket (_Context.mk false 0%nat) 1 Gevent1 (Done tt) (Done 7)).2
               = Ok (_Context.Green s) /\ context s = 0%nat) /\
  (_Context.socket (_Context.mk false 0%nat) 1 Gevent1 (Done tt) (Fail 9 None)).2
    = Err (ZMQError 9 None).
Proof.
  split; [|split].
  - exact (proj1 (context_socket_green (_Context.mk true 0%nat) 1 Gevent1
                    (Done tt) (Done 7)) eq_refl eq_refl).
  - destruct (proj1 (proj2 (context_socket_green (_Context.mk false 0%nat) 1 Gevent1
                              (Done tt) (Done 7)))
                eq_refl eq_refl tt 7 eq_refl eq_refl) as (s & Hs & Hc & _).
    exists s. split; assumption.
  - exact (proj1 (proj2 (proj2 (proj2 (context_socket_green (_Context.mk false 0%nat)
                    1 Gevent1 (Done tt) (Fail 9 None)))))
             eq_refl eq_refl tt 9 None eq_refl eq_refl).
Defined.

(** On an open context the construction can fail, and then no socket is
    returned: the native library refuses the socket type 99 with EINVAL
    (22), or the FD query of [__setup_events] fails.  And a socket type that
    is no C int is refused when the method is entered, before the context
    is looked at. *)
Lemma context_socket_may_raise :
  _Context.socket (_Context.mk false 0%nat) 99 Gevent1 (Fail 22 None) (Done 7)
    = ([], Err (ZMQError 22 None)) /\
  (_Context.socket (_Context.mk false 0%nat) 1 Gevent1 (Done tt) (Fail 9 None)).2
    = Err (ZMQError 9 None) /\
  _Context.socket (_Context.mk true 0%nat) 2147483648 Gevent1 (Done tt) (Done 7)
    = ([], Err OverflowError) /\
  ~ (forall self ty api created fd,
       _Context.closed self = false ->
       exists s, (_Context.socket self ty api created fd).2 = Ok (_Context.Green s)).
Proof.
  split; [reflexivity|]. split; [reflexivity|]. split; [reflexivity|].
  intros H.
  destruct (H (_Context.mk false 0%nat) 99 Gevent1 (Fail 22 None) (Done 7) eq_refl)
    as [s Hs].
  discriminate Hs.
Qed.

(** ** Waiting *)

Lemma get_pending_nil (l : loc) (s : _Socket.t) :
  cells s !! l = Some Pending -> get l [] s = (s, Suspended).
Proof. intros H. cbn [get]. now rewrite H. Qed.

Lemma get_pending_cons (l : loc) ev evs (s : _Socket.t) :
  cells s !! l = Some Pending -> get l (ev :: evs) s = get l evs (hub_step ev s).
Proof. intros H. cbn [get]. now rewrite H. Qed.

Lemma get_value (l : loc) evs (s : _Socket.t) :
  cells s !! l = Some Value -> get l evs s = (s, Returned tt).
Proof. intros H. destruct evs; cbn [get]; now rewrite H. Qed.

Lemma replace_fresh (d : direction) (s : _Socket.t) :
  let l := length (cells s) in
  cells s !! l = None /\
  attr d (replace d s).1 = l /\
  cells (replace d s).1 !! l = Some Pending.
Proof.
  cbn zeta. split; [|split].
  - now apply lookup_ge_None.
  - now destruct d.
  - unfold replace, alloc. destruct d; cbn [fst cells];
      (rewrite lookup_app_r by lia; now rewrite Nat.sub_diag).
Qed.

Lemma wait_write_eq (evs : list hub_event) (s : _Socket.t) :
  _wait_write evs s =
    ([CellNew Writable (length (cells s)); CellGet (length (cells s))],
     (get (length (cells s)) evs (replace Writable s).1).1,
     (get (length (cells s)) evs (replace Writable s).1).2).
Proof.
  unfold _wait_write, replace, alloc. cbn [__writable].
  now destruct (get _ evs _).
Qed.

Lemma wait_read_eq (evs : list hub_event) (s : _Socket.t) :
  _wait_read evs s =
    ([CellNew Readable (length (cells s)); CellGet (length (cells s))],
     (get (length (cells s)) evs (replace Readable s).1).1,
     (get (length (cells s)) evs (replace Readable s).1).2).
Proof.
  unfold _wait_read, replace, alloc. cbn [__readable].
  now destruct (get _ evs _).
Qed.

Lemma wait_write_nil (s : _Socket.t) :
  _wait_write [] s =
    ([CellNew Writable (length (cells s)); CellGet (length (cells s))],
     (replace Writable s).1, Suspended).
Proof.
  rewrite wait_write_eq, get_pending_nil; [reflexivity|].
  apply (replace_fresh Writable s).
Qed.

Lemma wait_read_nil (s : _Socket.t) :
  _wait_read [] s =
    ([CellNew Readable (length (cells s)); CellGet (length (cells s))],
     (replace Readable s).1, Suspended).
Proof.
  rewrite wait_read_eq, get_pending_nil; [reflexivity|].
  apply (replace_fresh Readable s).
Qed.

Lemma fire_cells (events : Z) (s : _Socket.t) :
  wf s ->
  let s' := hub_step (Fire (Done events)) s in
  cells s' !! __readable s =
    (if closed s || Z.testbit events 0 then Some Value else cells s !! __readable s) /\
  cells s' !! __writable s =
    (if closed s || Z.testbit events 1 then Some Value else cells s !! __writable s).
Proof.
  intros Hwf. pose proof Hwf as (Hne & Hr & Hw).
  cbn zeta. unfold hub_step, __state_changed.
  destruct (closed s); cbn [orb].
  - now apply set_both.
  - rewrite truthy_POLLOUT, truthy_POLLIN.
    destruct (Z.testbit events 1), (Z.testbit events 0);
      cbn [fst snd]; rewrite ?readable_set.
    + now apply set_both.
    + split; [apply lookup_set_ne; congruence | now apply lookup_set_eq].
    + split; [now apply lookup_set_eq | now apply lookup_set_ne].
    + split; reflexivity.
Qed.

(** ** The retry loop of send and recv *)

Lemma wait_write_trace (evs : list hub_event) (s : _Socket.t) :
  (_wait_write evs s).1.1 =
    [CellNew Writable (length (cells s)); CellGet (length (cells s))].
Proof.
  unfold _wait_write, replace, alloc.
  now destruct (get _ evs _).
Qed.

Lemma wait_read_trace (evs : list hub_event) (s : _Socket.t) :
  (_wait_read evs s).1.1 =
    [CellNew Readable (length (cells s)); CellGet (length (cells s))].
Proof.
  unfold _wait_read, replace, alloc.
  now destruct (get _ evs _).
Qed.

Lemma send_loop_retry data flags copy track msg evs r' rest s trw s2 :
  _wait_write evs (__notify_waiters s).2 = (trw, s2, Returned tt) ->
  send_loop data flags copy track (Fail EAGAIN msg) ((evs, r') :: rest) s =
    let '(tr, s3, o) := send_loop data flags copy track r' rest s2 in
    (NativeSend data flags copy track :: (__notify_waiters s).1 ++ trw ++ tr, s3, o).
Proof.
  intros Hw. cbn [send_loop]. change (negb (EAGAIN =? EAGAIN)) with false.
  cbn iota. destruct (__notify_waiters s) as [tr1 s1] eqn:E1.
  cbn [snd fst] in *. cbn [woken]. rewrite Hw. reflexivity.
Qed.

Lemma recv_loop_retry flags copy track msg evs r' rest s trw s2 :
  _wait_read evs (__notify_waiters s).2 = (trw, s2, Returned tt) ->
  recv_loop flags copy track (Fail EAGAIN msg) ((evs, r') :: rest) s =
    let '(tr, s3, o) := recv_loop flags copy track r' rest s2 in
    (NativeRecv flags copy track :: (__notify_waiters s).1 ++ trw ++ tr, s3, o).
Proof.
  intros Hw. cbn [recv_loop]. change (negb (EAGAIN =? EAGAIN)) with false.
  cbn iota. destruct (__notify_waiters s) as [tr1 s1] eqn:E1.
  cbn [snd fst] in *. cbn [woken]. rewrite Hw. reflexivity.
Qed.

Lemma send_loop_eagain data flags copy track msg evs r' rest s :
  send_loop data flags copy track (Fail EAGAIN msg) ((evs, r') :: rest) s =
    let l := length (cells s) in
    let sw := (replace Writable (__notify_waiters s).2).1 in
    let pre := [NativeSend data flags copy track;
                CellSet (__writable s); CellSet (__readable s);
                CellNew Writable l; CellGet l] in
    match (get l evs sw).2 with
    | Returned _ =>
        let '(tr, s3, o) := send_loop data flags copy track r' rest (get l evs sw).1 in
        (pre ++ tr, s3, o)
    | Raised e => (pre, (get l evs sw).1, Raised e)
    | Suspended => (pre, (get l evs sw).1, Suspended)
    end.
Proof.
  cbn [send_loop]. change (negb (EAGAIN =? EAGAIN)) with false. cbn iota zeta.
  unfold __notify_waiters. cbn [woken snd].
  rewrite wait_write_eq, !length_set.
  destruct (get (length (cells s)) evs _) as [s2 o]. cbn [fst snd].
  destruct o as [[]|e|]; reflexivity.
Qed.

Lemma recv_loop_eagain flags copy track msg evs r' rest s :
  recv_loop flags copy track (Fail EAGAIN msg) ((evs, r') :: rest) s =
    let l := length (cells s) in
    let sr := (replace Readable (__notify_waiters s).2).1 in
    let pre := [NativeRecv flags copy track;
                CellSet (__writable s); CellSet (__readable s);
                CellNew Readable l; CellGet l] in
    match (get l evs sr).2 with
    | Returned _ =>
        let '(tr, s3, o) := recv_loop flags copy track r' rest (get l evs sr).1 in
        (pre ++ tr, s3, o)
    | Raised e => (pre, (get l evs sr).1, Raised e)
    | Suspended => (pre, (get l evs sr).1, Suspended)
    end.
Proof.
  cbn [recv_loop]. change (negb (EAGAIN =? EAGAIN)) with false. cbn iota zeta.
  unfold __notify_waiters. cbn [woken snd].
  rewrite wait_read_eq, !length_set.
  destruct (get (length (cells s)) evs _) as [s2 o]. cbn [fst snd].
  destruct o as [[]|e|]; reflexivity.
Qed.

Lemma send_loop_eagain_nil data flags copy track msg s :
  send_loop data flags copy track (Fail EAGAIN msg) [] s =
    ([NativeSend data flags copy track;
      CellSet (__writable s); CellSet (__readable s);
      CellNew Writable (length (cells s)); CellGet (length (cells s))],
     (replace Writable (__notify_waiters s).2).1, Suspended).
Proof.
  cbn [send_loop]. change (negb (EAGAIN =? EAGAIN)) with false. cbn iota zeta.
  unfold __notify_waiters. cbn [woken snd].
  now rewrite wait_write_nil, !length_set.
Qed.

Lemma recv_loop_eagain_nil flags copy track msg s :
  recv_loop flags copy track (Fail EAGAIN msg) [] s =
    ([NativeRecv flags copy track;
      CellSet (__writable s); CellSet (__readable s);
      CellNew Readable (length (cells s)); CellGet (length (cells s))],
     (replace Readable (__notify_waiters s).2).1, Suspended).
Proof.
  cbn [recv_loop]. change (negb (EAGAIN =? EAGAIN)) with false. cbn iota zeta.
  unfold __notify_waiters. cbn [woken snd].
  now rewrite wait_read_nil, !length_set.
Qed.

(** What the first firing of the watcher does to a wait that has just
    started on the new cell of direction [d]: it ends it when the bit of the
    direction is set, and on an open socket only then. *)
Lemma get_fired (d : direction) (events : Z) (evs : list hub_event) (s : _Socket.t) :
  wf s ->
  Z.testbit events (match d with Readable => 0 | Writable => 1 end) = true ->
  get (length (cells s)) (Fire (Done events) :: evs) (replace d s).1 =
    (hub_step (Fire (Done events)) (replace d s).1, Returned tt).
Proof.
  intros Hwf Hbit.
  destruct (replace_fresh d s) as (_ & Hattr & Hnew).
  pose proof (wf_replace d s Hwf) as Hwf1.
  destruct (fire_cells events _ Hwf1) as [Hr Hw]. cbn zeta in Hr, Hw.
  rewrite get_pending_cons by assumption.
  apply get_value.
  destruct d; cbn [attr] in Hattr; rewrite Hattr in *;
    rewrite Hbit, orb_true_r in *; assumption.
Qed.

Lemma get_not_fired (d : direction) (events : Z) (s : _Socket.t) :
  wf s -> closed s = false ->
  Z.testbit events (match d with Readable => 0 | Writable => 1 end) = false ->
  (get (length (cells s)) [Fire (Done events)] (replace d s).1).2 = Suspended.
Proof.
  intros Hwf Hc Hbit.
  destruct (replace_fresh d s) as (_ & Hattr & Hnew).
  pose proof (wf_replace d s Hwf) as Hwf1.
  assert (Hc1 : closed (replace d s).1 = false) by now destruct d.
  destruct (fire_cells events _ Hwf1) as [Hr Hw]. cbn zeta in Hr, Hw.
  rewrite Hc1 in Hr, Hw. cbn [orb] in Hr, Hw.
  rewrite get_pending_cons by assumption.
  rewrite get_pending_nil; [reflexivity|].
  destruct d; cbn [attr] in Hattr; rewrite Hattr in *;
    rewrite Hbit in *; congruence.
Qed.

(** C2. Without the no-block flag, send and recv call the native operation
    with the flag added.  A native success is returned; a native error
    other than EAGAIN is raised at once, with nothing done after the call.
    On EAGAIN the loop notifies, puts a new pending cell in the writable
    attribute (send) or the readable one (recv) and waits on that very cell
    in that state: if the wait returns, the same call is made again with the
    next native answer; if it raises or never ends, so does the call.  The
    wait is on the cell of the call's own direction: while nothing happens
    the call stays suspended although the old cells were just resolved, a
    firing of the watcher with the writable bit ends the wait of a send and
    one with the readable bit that of a recv, and on an open socket a firing
    with only the other bit does not. *)
Theorem send_recv_retry (flags : Z) (copy track : bool) (s : _Socket.t) :
  truthy (Z.land flags NOBLOCK) = false ->
  let f := Z.lor flags NOBLOCK in
  let l := length (cells s) in
  let sw := (replace Writable (__notify_waiters s).2).1 in
  let sr := (replace Readable (__notify_waiters s).2).1 in
  let sent data := [NativeSend data f copy track;
                    CellSet (__writable s); CellSet (__readable s);
                    CellNew Writable l; CellGet l] in
  let received := [NativeRecv f copy track;
                   CellSet (__writable s); CellSet (__readable s);
                   CellNew Readable l; CellGet l] in
  truthy (Z.land f NOBLOCK) = true /\
  (cells s !! l = None /\
   __writable sw = l /\ cells sw !! l = Some Pending /\
   __readable sr = l /\ cells sr !! l = Some Pending) /\
  (forall data v rest,
     __send data flags copy track (Done v) rest s
       = ([NativeSend data f copy track], s, Returned v)) /\
  (forall data errno msg rest, errno <> EAGAIN ->
     __send data flags copy track (Fail errno msg) rest s
       = ([NativeSend data f copy track], s, Raised (ZMQError errno msg))) /\
  (forall data msg evs r' rest,
     __send data flags copy track (Fail EAGAIN msg) ((evs, r') :: rest) s =
       match (get l evs sw).2 with
       | Returned _ =>
           let '(tr, s3, o) := __send data flags copy track r' rest (get l evs sw).1 in
           (sent data ++ tr, s3, o)
       | Raised e => (sent data, (get l evs sw).1, Raised e)
       | Suspended => (sent data, (get l evs sw).1, Suspended)
       end) /\
  (forall data msg,
     __send data flags copy track (Fail EAGAIN msg) [] s = (sent data, sw, Suspended)) /\
  (wf s -> forall data msg events evs r' rest, Z.testbit events 1 = true ->
     __send data flags copy track (Fail EAGAIN msg)
       ((Fire (Done events) :: evs, r') :: rest) s =
       let '(tr, s3, o) := __send data flags copy track r' rest
                             (hub_step (Fire (Done events)) sw) in
       (sent data ++ tr, s3, o)) /\
  (wf s -> closed s = false ->
   forall data msg events r' rest, Z.testbit events 1 = false ->
     (__send data flags copy track (Fail EAGAIN msg)
        (([Fire (Done events)], r') :: rest) s).2 = Suspended) /\
  (forall v rest,
     __recv flags copy track (Done v) rest s
       = ([NativeRecv f copy track], s, Returned v)) /\
  (forall errno msg rest, errno <> EAGAIN ->
     __recv flags copy track (Fail errno msg) rest s
       = ([NativeRecv f copy track], s, Raised (ZMQError errno msg))) /\
  (forall msg evs r' rest,
     __recv flags copy track (Fail EAGAIN msg) ((evs, r') :: rest) s =
       match (get l evs sr).2 with
       | Returned _ =>
           let '(tr, s3, o) := __recv flags copy track r' rest (get l evs sr).1 in
           (received ++ tr, s3, o)
       | Raised e => (received, (get l evs sr).1, Raised e)
       | Suspended => (received, (get l evs sr).1, Suspended)
       end) /\
  (forall msg,
     __recv flags copy track (Fail EAGAIN msg) [] s = (received, sr, Suspended)) /\
  (wf s -> forall msg events evs r' rest, Z.testbit events 0 = true ->
     __recv flags copy track (Fail EAGAIN msg)
       ((Fire (Done events) :: evs, r') :: rest) s =
       let '(tr, s3, o) := __recv flags copy track r' rest
                             (hub_step (Fire (Done events)) sr) in
       (received ++ tr, s3, o)) /\
  (wf s -> closed s = false ->
   forall msg events r' rest, Z.testbit events 0 = false ->
     (__recv flags copy track (Fail EAGAIN msg)
        (([Fire (Done events)], r') :: rest) s).2 = Suspended).
Proof.
  intros Hf. cbn zeta. unfold __send, __recv. rewrite Hf.
  assert (Hlen : length (cells (__notify_waiters s).2) = length (cells s)).
  { unfold __notify_waiters. cbn [snd]. now rewrite !length_set. }
  destruct (replace_fresh Writable (__notify_waiters s).2) as (Hnone & Haw & Hnw).
  destruct (replace_fresh Readable (__notify_waiters s).2) as (_ & Har & Hnr).
  cbn [attr] in Haw, Har. rewrite Hlen in Hnone, Haw, Hnw, Har, Hnr.
  split; [apply truthy_NOBLOCK_added|].
  split.
  { repeat split; try assumption.
    apply lookup_ge_None. lia. }
  split; [|split; [|split; [|split; [|split; [|split]]]]].
  - intros data v rest. now destruct rest.
  - intros data errno msg rest Hne.
    destruct rest; cbn [send_loop];
      (destruct (Z.eqb_spec errno EAGAIN); [contradiction | reflexivity]).
  - intros data msg evs r' rest. apply send_loop_eagain.
  - intros data msg. apply send_loop_eagain_nil.
  - intros Hwf data msg events evs r' rest Hbit.
    rewrite send_loop_eagain. cbn zeta.
    pose proof (get_fired Writable events evs _ (wf_notify s Hwf) Hbit) as Hg.
    rewrite Hlen in Hg. now rewrite Hg.
  - intros Hwf Hc data msg events r' rest Hbit.
    rewrite send_loop_eagain. cbn zeta.
    pose proof (get_not_fired Writable events _ (wf_notify s Hwf) Hc Hbit) as Hg.
    rewrite Hlen in Hg. now rewrite Hg.
  - split; [|split; [|split; [|split; [|split]]]].
    + intros v rest. now destruct rest.
    + intros errno msg rest Hne.
      destruct rest; cbn [recv_loop];
        (destruct (Z.eqb_spec errno EAGAIN); [contradiction | reflexivity]).
    + intros msg evs r' rest. apply recv_loop_eagain.
    + intros msg. apply recv_loop_eagain_nil.
    + intros Hwf msg events evs r' rest Hbit.
      rewrite recv_loop_eagain. cbn zeta.
      pose proof (get_fired Readable events evs _ (wf_notify s Hwf) Hbit) as Hg.
      rewrite Hlen in Hg. now rewrite Hg.
    + intros Hwf Hc msg events r' rest Hbit.
      rewrite recv_loop_eagain. cbn zeta.
      pose proof (get_not_fired Readable events _ (wf_notify s Hwf) Hc Hbit) as Hg.
      rewrite Hlen in Hg. now rewrite Hg.
Qed.

Lemma send_recv_retry_witness :
  __send (PyBytes "hi") 0 true false (Fail EAGAIN None)
    [([Fire (Done POLLOUT)], Done PyNone)] fresh_socket
  = ([NativeSend (PyBytes "hi") 1 true false;
      CellSet 1%nat; CellSet 0%nat; CellNew Writable 2%nat; CellGet 2%nat;
      NativeSend (PyBytes "hi") 1 true false],
     mk false 0%nat 1 [Value; Value; Value] 0%nat 2%nat
        (Some (mkWatcher Gevent1 7 true)),
     Returned PyNone) /\
  (__recv 0 true false (Fail EAGAIN None)
     [([Fire (Done POLLOUT)], Done PyNone)] fresh_socket).2 = Suspended.
Proof.
  assert (Hwf : wf fresh_socket) by (repeat split; simpl; [congruence | lia | lia]).
  destruct (send_recv_retry 0 true false fresh_socket eq_refl)
    as (_ & _ & _ & _ & _ & _ & Hs & _ & _ & _ & _ & _ & _ & Hr).
  split.
  - rewrite (Hs Hwf (PyBytes "hi") None POLLOUT [] (Done PyNone) [] eq_refl).
    reflexivity.
  - exact (Hr Hwf eq_refl None POLLOUT (Done PyNone) [] eq_refl).
Defined.

(** ** Reset before wait *)









(** ** What the retry step notifies *)

Lemma send_loop_no_query data flags copy track rest :
  forall r s,
    forallb (fun e => negb (is_query e))
      (send_loop data flags copy track r rest s).1.1 = true.
Proof.
  induction rest as [|[evs r'] rest IH]; intros r s;
    (destruct r as [v|errno msg]; [reflexivity|]);
    cbn [send_loop]; (destruct (negb (errno =? EAGAIN)); [reflexivity|]);
    unfold __notify_waiters, _wait_write, replace, alloc; cbn [woken fst snd].
  - destruct (get _ [] _) as [s2 o]. now destruct o.
  - destruct (get _ evs _) as [s2 o].
    destruct o as [[]|e|]; try reflexivity.
    specialize (IH r' s2).
    destruct (send_loop data flags copy track r' rest s2) as [[tr3 s3] o3].
    exact IH.
Qed.

Lemma send_loop_retry_prefix data flags copy track msg rest s :
  exists tail,
    (send_loop data flags copy track (Fail EAGAIN msg) rest s).1.1 =
      NativeSend data flags copy track
        :: CellSet (__writable s) :: CellSet (__readable s)
        :: CellNew Writable (length (cells s)) :: CellGet (length (cells s))
        :: tail.
Proof.
  assert (Hlen : length (cells (set (__readable s) (set (__writable s) s)))
                 = length (cells s)) by now rewrite !length_set.
  destruct rest as [|[evs r'] rest]; cbn [send_loop];
    change (negb (EAGAIN =? EAGAIN)) with false; cbn iota;
    unfold __notify_waiters, _wait_write, replace, alloc; cbn [woken fst snd];
    rewrite Hlen.
  - destruct (get _ [] _) as [s2 o]. exists []. now destruct o.
  - destruct (get _ evs _) as [s2 o].
    destruct o as [[]|e|]; try (now exists []).
    destruct (send_loop data flags copy track r' rest s2) as [[tr3 s3] o3].
    now exists tr3.
Qed.

(** C4 (as amended). In the send retry loop, after an EAGAIN and right
    before the wait, the socket resolves both the writable and the readable
    cell with a value, whatever their direction's readiness: the event mask
    is never queried.  The wait then starts on a new pending writable
    cell. *)
Theorem retry_notifies_both data flags copy track msg (s : _Socket.t) :
  wf s ->
  truthy (Z.land flags NOBLOCK) = false ->
  let l := length (cells s) in
  let s1 := (replace Writable (__notify_waiters s).2).1 in
  (forall rest, exists tail,
     (__send data flags copy track (Fail EAGAIN msg) rest s).1.1 =
       NativeSend data (Z.lor flags NOBLOCK) copy track
         :: CellSet (__writable s) :: CellSet (__readable s)
         :: CellNew Writable l :: CellGet l :: tail) /\
  (forall rest,
     forallb (fun e => negb (is_query e))
       (__send data flags copy track (Fail EAGAIN msg) rest s).1.1 = true) /\
  (__send data flags copy track (Fail EAGAIN msg) [] s).1.2 = s1 /\
  (__send data flags copy track (Fail EAGAIN msg) [] s).2 = Suspended /\
  cells s1 !! __readable s = Some Value /\
  cells s1 !! __writable s = Some Value /\
  __writable s1 = l /\
  cells s1 !! l = Some Pending.
Proof.
  intros Hwf Hf. pose proof Hwf as (Hne & Hr & Hw).
  cbn zeta. unfold __send. rewrite Hf.
  assert (Hlen : length (cells (__notify_waiters s).2) = length (cells s)).
  { unfold __notify_waiters. cbn [snd]. now rewrite !length_set. }
  destruct (replace_fresh Writable (__notify_waiters s).2) as (_ & Hattr & Hnew).
  rewrite Hlen in Hattr, Hnew.
  destruct (notify_cells s Hwf) as [Hvr Hvw].
  assert (Hrun : send_loop data (Z.lor flags NOBLOCK) copy track (Fail EAGAIN msg) [] s
                 = ([NativeSend data (Z.lor flags NOBLOCK) copy track;
                     CellSet (__writable s); CellSet (__readable s);
                     CellNew Writable (length (cells s)); CellGet (length (cells s))],
                    (replace Writable (__notify_waiters s).2).1, Suspended)).
  { cbn [send_loop]. change (negb (EAGAIN =? EAGAIN)) with false. cbn iota.
    unfold __notify_waiters in *. cbn [woken snd] in *.
    rewrite wait_write_nil, Hlen. reflexivity. }
  split; [|split; [|split; [|split; [|split; [|split; [|split]]]]]].
  - intros rest. apply send_loop_retry_prefix.
  - intros rest. apply send_loop_no_query.
  - now rewrite Hrun.
  - now rewrite Hrun.
  - unfold replace, alloc. cbn [fst cells].
    rewrite lookup_app_l by (rewrite Hlen; lia). exact Hvr.
  - unfold replace, alloc. cbn [fst cells].
    rewrite lookup_app_l by (rewrite Hlen; lia). exact Hvw.
  - exact Hattr.
  - exact Hnew.
Qed.

Lemma retry_notifies_both_witness :
  (__send (PyBytes "hi") 0 true false (Fail EAGAIN None) [] fresh_socket).1.2
    = mk false 0%nat 1 [Value; Value; Pending] 0%nat 2%nat
         (Some (mkWatcher Gevent1 7 true)) /\
  (__send (PyBytes "hi") 0 true false (Fail EAGAIN None) [] fresh_socket).2
    = Suspended.
Proof.
  assert (Hwf : wf fresh_socket) by (repeat split; simpl; [congruence | lia | lia]).
  destruct (retry_notifies_both (PyBytes "hi") 0 true false None fresh_socket
              Hwf eq_refl) as (_ & _ & Hs & Ho & _).
  split; [rewrite Hs; reflexivity | exact Ho].
Defined.

(** With nothing ready (event mask 0) the readiness handler leaves both
    cells pending, but the retry step of send resolves both. *)
Lemma retry_resolves_unready_cells :
  resolves_only_ready 0 fresh_socket (__state_changed (Done 0) fresh_socket).2 /\
  ~ resolves_only_ready 0 fresh_socket
      (__send (PyBytes "hi") 0 true false (Fail EAGAIN None) [] fresh_socket).1.2.
Proof.
  split.
  - split; intros _ H; discriminate H.
  - intros [H _]. specialize (H eq_refl eq_refl). discriminate H.
Qed.

(** ** Notifications and later waits *)

Lemma closed_state_changed (q : native Z) (s : _Socket.t) :
  closed (__state_changed q s).2 = closed s.
Proof.
  unfold __state_changed.
  destruct (closed s) eqn:E; [assumption|destruct q as [events|errno msg]].
  - now destruct (truthy (Z.land events POLLOUT)), (truthy (Z.land events POLLIN)).
  - assumption.
Qed.

(** A wait that starts on a well-formed socket: asleep while nothing
    happens, woken by the next firing of the watcher that finds the
    direction ready, not by one that does not. *)
Lemma wait_write_later (s : _Socket.t) :
  wf s ->
  (_wait_write [] s).2 = Suspended /\
  (forall events evs, Z.testbit events 1 = true ->
     (_wait_write (Fire (Done events) :: evs) s).2 = Returned tt) /\
  (forall evs, (_wait_write (Notify :: evs) s).2 = Returned tt) /\
  (closed s = false -> forall events, Z.testbit events 1 = false ->
     (_wait_write [Fire (Done events)] s).2 = Suspended).
Proof.
  intros Hwf.
  destruct (replace_fresh Writable s) as (_ & Hattr & Hnew). cbn [attr] in Hattr.
  pose proof (wf_replace Writable s Hwf) as Hwf1.
  split; [now rewrite wait_write_nil|].
  split; [|split].
  - intros events evs Hbit. rewrite wait_write_eq, get_pending_cons by assumption.
    destruct (fire_cells events _ Hwf1) as [_ Hw]. cbn zeta in Hw.
    rewrite Hbit, orb_true_r, Hattr in Hw. now rewrite (get_value _ _ _ Hw).
  - intros evs. rewrite wait_write_eq, get_pending_cons by assumption.
    destruct (notify_cells _ Hwf1) as [_ Hw]. rewrite Hattr in Hw.
    cbn [hub_step]. now rewrite (get_value _ _ _ Hw).
  - intros Hc events Hbit. rewrite wait_write_eq, get_pending_cons by assumption.
    destruct (fire_cells events _ Hwf1) as [_ Hw]. cbn zeta in Hw.
    replace (closed (replace Writable s).1) with false in Hw
      by (symmetry; exact Hc).
    rewrite Hbit, Hattr, Hnew in Hw. cbn [orb] in Hw.
    now rewrite (get_pending_nil _ _ Hw).
Qed.

Lemma wait_read_later (s : _Socket.t) :
  wf s ->
  (_wait_read [] s).2 = Suspended /\
  (forall events evs, Z.testbit events 0 = true ->
     (_wait_read (Fire (Done events) :: evs) s).2 = Returned tt) /\
  (forall evs, (_wait_read (Notify :: evs) s).2 = Returned tt) /\
  (closed s = false -> forall events, Z.testbit events 0 = false ->
     (_wait_read [Fire (Done events)] s).2 = Suspended).
Proof.
  intros Hwf.
  destruct (replace_fresh Readable s) as (_ & Hattr & Hnew). cbn [attr] in Hattr.
  pose proof (wf_replace Readable s Hwf) as Hwf1.
  split; [now rewrite wait_read_nil|].
  split; [|split].
  - intros events evs Hbit. rewrite wait_read_eq, get_pending_cons by assumption.
    destruct (fire_cells events _ Hwf1) as [Hr _]. cbn zeta in Hr.
    rewrite Hbit, orb_true_r, Hattr in Hr. now rewrite (get_value _ _ _ Hr).
  - intros evs. rewrite wait_read_eq, get_pending_cons by assumption.
    destruct (notify_cells _ Hwf1) as [Hr _]. rewrite Hattr in Hr.
    cbn [hub_step]. now rewrite (get_value _ _ _ Hr).
  - intros Hc events Hbit. rewrite wait_read_eq, get_pending_cons by assumption.
    destruct (fire_cells events _ Hwf1) as [Hr _]. cbn zeta in Hr.
    replace (closed (replace Readable s).1) with false in Hr
      by (symmetry; exact Hc).
    rewrite Hbit, Hattr, Hnew in Hr. cbn [orb] in Hr.
    now rewrite (get_pending_nil _ _ Hr).
Qed.

(** C1 (as amended). A task that begins waiting on a direction's cell after
    a readiness-change notification has fired waits on a new pending cell
    that this earlier notification did not resolve: while nothing further
    happens, and at a later notification that finds the direction not ready
    on the open socket, the task stays suspended; the wait completes at the
    next notification that finds the direction ready, or at the next
    notify-all made by another operation on the socket. *)
Theorem wait_needs_later_resolution (q : native Z) (s : _Socket.t) :
  wf s ->
  let s1 := (__state_changed q s).2 in
  (_wait_write [] s1).2 = Suspended /\
  (_wait_read [] s1).2 = Suspended /\
  (forall events evs, Z.testbit events 1 = true ->
     (_wait_write (Fire (Done events) :: evs) s1).2 = Returned tt) /\
  (forall events evs, Z.testbit events 0 = true ->
     (_wait_read (Fire (Done events) :: evs) s1).2 = Returned tt) /\
  (forall evs,
     (_wait_write (Notify :: evs) s1).2 = Returned tt /\
     (_wait_read (Notify :: evs) s1).2 = Returned tt) /\
  (closed s = false -> forall events, Z.testbit events 1 = false ->
     (_wait_write [Fire (Done events)] s1).2 = Suspended) /\
  (closed s = false -> forall events, Z.testbit events 0 = false ->
     (_wait_read [Fire (Done events)] s1).2 = Suspended).
Proof.
  intros Hwf. cbn zeta.
  pose proof (wf_state_changed q s Hwf) as Hwf1.
  pose proof (closed_state_changed q s) as Hc1.
  destruct (wait_write_later _ Hwf1) as (Hw0 & Hw1 & Hw2 & Hw3).
  destruct (wait_read_later _ Hwf1) as (Hr0 & Hr1 & Hr2 & Hr3).
  repeat split; try assumption.
  - apply Hw2.
  - apply Hr2.
  - intros Hc. apply Hw3. congruence.
  - intros Hc. apply Hr3. congruence.
Qed.

Lemma wait_needs_later_resolution_witness :
  (_wait_write [] (__state_changed (Done POLLOUT) fresh_socket).2).2 = Suspended /\
  (_wait_write [Fire (Done POLLOUT)]
     (__state_changed (Done POLLOUT) fresh_socket).2).2 = Returned tt.
Proof.
  assert (Hwf : wf fresh_socket) by (repeat split; simpl; [congruence | lia | lia]).
  destruct (wait_needs_later_resolution (Done POLLOUT) fresh_socket Hwf)
    as (H0 & _ & H1 & _).
  split; [exact H0 | exact (H1 POLLOUT [] eq_refl)].
Defined.

(** The watcher fires while the socket is writable and resolves the writable
    cell; the wait that starts afterwards does not complete, neither with
    nothing further happening nor with later notifications for the other
    direction. *)
Lemma wait_after_notification_sleeps :
  let s1 := (__state_changed (Done POLLOUT) fresh_socket).2 in
  Z.testbit POLLOUT 1 = true /\
  cells s1 !! __writable s1 = Some Value /\
  (_wait_write [] s1).2 = Suspended /\
  (_wait_write [Fire (Done POLLIN); Fire (Done 0)] s1).2 = Suspended /\
  ~ (forall (s : _Socket.t) events evs,
       wf s -> closed s = false -> Z.testbit events 1 = true ->
       (_wait_write evs (__state_changed (Done events) s).2).2 <> Suspended).
Proof.
  cbn zeta. repeat split.
  intros H.
  apply (H fresh_socket POLLOUT []); try reflexivity.
  apply wf_constructed.
Qed.

(** ** The poller: timeouts *)

Import _Poller.

Lemma digits2_pos_bound (m : positive) : Z.pos m < 2 ^ Z.pos (digits2_pos m).
Proof.
  induction m as [m IH|m IH|]; cbn [digits2_pos].
  - rewrite Pos2Z.inj_succ, Z.pow_succ_r by lia. lia.
  - rewrite Pos2Z.inj_succ, Z.pow_succ_r by lia. lia.
  - reflexivity.
Qed.

Lemma SFone_binary64 : SFone 53 1024 = S754_finite false 4503599627370496 (-52).
Proof. vm_compute. reflexivity. Qed.

(** A binary64 float strictly between 0 and 1 truncates to 0. *)
Lemma int_fraction (f : spec_float) :
  valid_binary 53 1024 f = true ->
  SFltb (S754_zero false) f = true ->
  SFltb f (SFone 53 1024) = true ->
  int (PyFloat f) = Ok 0.
Proof.
  rewrite SFone_binary64. unfold SFltb. intros Hv H0 Hlt.
  destruct f as [sg|sg| |sg m e]; cbn [SFcompare] in H0, Hlt;
    try discriminate; try (destruct sg; discriminate).
  destruct sg; [discriminate|]. clear H0.
  cbn [valid_binary] in Hv. unfold bounded, canonical_mantissa, fexp, emin in Hv.
  apply andb_prop in Hv as [Hcan _]. apply Z.eqb_eq in Hcan.
  pose proof (digits2_pos_bound m) as Hd.
  assert (Hdig : Z.pos (digits2_pos m) <= 53) by lia.
  assert (Hm53 : Z.pos m < 2 ^ 53).
  { eapply Z.lt_le_trans; [exact Hd|]. apply Z.pow_le_mono_r; lia. }
  assert (Hsmall : Z.pos m < 2 ^ (- e)).
  { destruct (Z.compare_spec e (-52)) as [->|Hlt'|Hgt]; [| |discriminate].
    - rewrite Pos.compare_cont_spec in Hlt. cbn [Pos.switch_Eq] in Hlt.
      destruct (Pos.compare_spec m 4503599627370496) as [|Hm|]; try discriminate.
      change (2 ^ (- (-52))) with 4503599627370496.
      exact (Pos2Z.pos_lt_pos _ _ Hm).
    - eapply Z.lt_le_trans; [exact Hm53|]. apply Z.pow_le_mono_r; lia. }
  assert (He : e <= -52).
  { destruct (Z.compare_spec e (-52)); first [lia | discriminate]. }
  cbn [int].
  rewrite <- (Z.opp_involutive e), Z.shiftl_opp_r, Z.shiftr_div_pow2 by lia.
  rewrite Z.div_small; [reflexivity | lia].
Qed.

Lemma poll_loop_zero socks d p rest :
  poll_loop socks 0 d p rest = ([NativePoll 0], answer p).
Proof.
  destruct rest, p as [events|errno msg]; cbn [poll_loop answer];
    try reflexivity; now rewrite orb_true_r.
Qed.

Lemma poll_zero socks timeout fresh p rest :
  normalize timeout = Ok 0 ->
  poll socks timeout fresh p rest = ([NativePoll 0], answer p).
Proof.
  intros H. unfold poll. rewrite H, poll_loop_zero.
  now destruct p.
Qed.

(** C10. A binary64 timeout strictly between 0 and 1 (milliseconds), such as
    0.5, is truncated to 0 by [int]: poll makes one non-blocking native poll
    and returns (or raises) what it answers at once, with no timer started
    and no wait on the descriptors. *)
Theorem poll_fraction_returns_at_once socks (f : spec_float) fresh p rest :
  valid_binary 53 1024 f = true ->
  SFltb (S754_zero false) f = true ->
  SFltb f (SFone 53 1024) = true ->
  int (PyFloat f) = Ok 0 /\
  normalize (Some (PyFloat f)) = Ok 0 /\
  poll socks (Some (PyFloat f)) fresh p rest = ([NativePoll 0], answer p).
Proof.
  intros Hv H0 H1. pose proof (int_fraction f Hv H0 H1) as Hint.
  assert (Hn : normalize (Some (PyFloat f)) = Ok 0)
    by (unfold normalize; now rewrite Hint).
  split; [assumption|]. split; [assumption|].
  now apply poll_zero.
Qed.

Lemma poll_fraction_returns_at_once_witness :
  poll [(IntFd 3, POLLIN)] (Some (PyFloat half)) 0%nat (Done [])
       [(Activity, Done [(0%nat, POLLIN)])]
    = ([NativePoll 0], Returned []).
Proof.
  exact (proj2 (proj2 (poll_fraction_returns_at_once [(IntFd 3, POLLIN)] half 0%nat
                         (Done []) [(Activity, Done [(0%nat, POLLIN)])]
                         eq_refl eq_refl eq_refl))).
Defined.

(** ** Normalizing the timeout *)

Lemma poll_loop_no_timer socks timeout rest :
  forall d p,
    forallb (fun e => negb (is_timer_event e))
      (poll_loop socks timeout d p rest).1 = true.
Proof.
  induction rest as [|[w p'] rest IH]; intros d p;
    (destruct p as [events|errno msg]; [|reflexivity]); cbn [poll_loop];
    (destruct (negb (bool_decide (events = [])) || (timeout =? 0)); [reflexivity|]);
    destruct (unset d).
  - now destruct (_get_descriptors socks) as [[[rl wl] xl]|e].
  - now destruct d as [[[rl wl] xl]|].
  - destruct (_get_descriptors socks) as [[[rl wl] xl]|e]; [|reflexivity].
    destruct w; try reflexivity.
    specialize (IH (Some (rl, wl, xl)) p').
    destruct (poll_loop socks timeout (Some (rl, wl, xl)) p' rest) as [tr' o].
    exact IH.
  - assert (exists rl wl xl,
              match d with Some l => Ok l | None => Ok ([], [], []) end
              = @Ok lists (rl, wl, xl)) as (rl & wl & xl & ->).
    { destruct d as [[[rl wl] xl]|]; eauto. }
    destruct w; try reflexivity.
    specialize (IH (Some (rl, wl, xl)) p').
    destruct (poll_loop socks timeout (Some (rl, wl, xl)) p' rest) as [tr' o].
    exact IH.
Qed.

(** With a timeout other than 0 the loop returns only events that the
    native poll reported: never an empty list. *)
Lemma poll_loop_returns_events socks timeout rest :
  timeout <> 0 ->
  forall d p evs,
    (poll_loop socks timeout d p rest).2 = Returned evs -> evs <> [].
Proof.
  intros Ht.
  assert (Hz : (timeout =? 0) = false) by now apply Z.eqb_neq.
  induction rest as [|[w p'] rest IH]; intros d p evs;
    (destruct p as [events|errno msg]; [|discriminate]); cbn [poll_loop];
    rewrite Hz, orb_false_r;
    (destruct (bool_decide_reflect (events = [])) as [Hnil|Hcons]; cbn [negb];
     [|intros [= <-]; exact Hcons]);
    destruct (unset d).
  - now destruct (_get_descriptors socks) as [[[rl wl] xl]|e].
  - now destruct d as [[[rl wl] xl]|].
  - destruct (_get_descriptors socks) as [[[rl wl] xl]|e]; [|discriminate].
    destruct w; try discriminate.
    specialize (IH (Some (rl, wl, xl)) p' evs).
    destruct (poll_loop socks timeout (Some (rl, wl, xl)) p' rest) as [tr' o].
    exact IH.
  - assert (exists rl wl xl,
              match d with Some l => Ok l | None => Ok ([], [], []) end
              = @Ok lists (rl, wl, xl)) as (rl & wl & xl & ->).
    { destruct d as [[[rl wl] xl]|]; eauto. }
    destruct w; try discriminate.
    specialize (IH (Some (rl, wl, xl)) p' evs).
    destruct (poll_loop socks timeout (Some (rl, wl, xl)) p' rest) as [tr' o].
    exact IH.
Qed.

(** While the native poll reports nothing and [select] wakes up on
    activity, a poll without timeout keeps waiting. *)
Lemma poll_loop_keeps_waiting socks (l : lists) (n : nat) :
  _get_descriptors socks = Ok l ->
  forall d, d = None \/ d = Some l ->
    (poll_loop socks (-1) d (Done []) (repeat (Activity, Done []) n)).2 = Suspended.
Proof.
  intros Hl. destruct l as [[rl wl] xl].
  induction n as [|n IH]; intros d Hd; cbn [repeat poll_loop];
    change (negb (bool_decide ([] = [])) || (-1 =? 0)) with false; cbn iota.
  - destruct Hd as [->| ->].
    + cbn [unset]. now rewrite Hl.
    + destruct (unset (Some (rl, wl, xl))); [rewrite Hl|]; reflexivity.
  - assert (Hrec : (poll_loop socks (-1) (Some (rl, wl, xl)) (Done [])
                      (repeat (Activity, Done []) n)).2 = Suspended)
      by (apply IH; now right).
    destruct Hd as [->| ->].
    + cbn [unset]. rewrite Hl.
      destruct (poll_loop socks (-1) (Some (rl, wl, xl)) (Done [])
                  (repeat (Activity, Done []) n)) as [tr' o].
      exact Hrec.
    + destruct (unset (Some (rl, wl, xl))); [rewrite Hl|];
        destruct (poll_loop socks (-1) (Some (rl, wl, xl)) (Done [])
                    (repeat (Activity, Done []) n)) as [tr' o];
        exact Hrec.
Qed.

Lemma poll_indefinite socks timeout fresh p rest :
  normalize timeout = Ok (-1) ->
  poll socks timeout fresh p rest =
    ((poll_loop socks (-1) None p rest).1,
     match (poll_loop socks (-1) None p rest).2 with
     | Raised (Timeout _) => Raised (UnboundLocalError "tout")
     | o => o
     end).
Proof.
  intros H. unfold poll. rewrite H. change (0 <? -1) with false. cbn iota.
  destruct (poll_loop socks (-1) None p rest) as [tr o]. cbn [fst snd app].
  rewrite app_nil_r. now destruct o as [a|[]|].
Qed.

(** C7 (as amended). A missing timeout, and one that [int] converts to a
    negative integer, is normalized to -1: poll then starts no timer, never
    returns an empty list, and is still waiting for as long as the native
    poll reports nothing.  A timeout that [int] converts to 0 (exactly 0, and
    also a negative fraction such as -0.5, which is truncated to 0 before the
    sign is tested) makes one non-blocking native poll and returns its answer
    at once, without waiting. *)
Theorem poll_timeout_normalized socks fresh p rest :
  normalize None = Ok (-1) /\
  (forall x t, int x = Ok t -> t < 0 -> normalize (Some x) = Ok (-1)) /\
  (forall timeout, normalize timeout = Ok (-1) ->
     forallb (fun e => negb (is_timer_event e))
       (poll socks timeout fresh p rest).1 = true /\
     (forall evs, (poll socks timeout fresh p rest).2 = Returned evs -> evs <> []) /\
     (forall l n, _get_descriptors socks = Ok l ->
        (poll socks timeout fresh (Done []) (repeat (Activity, Done []) n)).2
          = Suspended)) /\
  normalize (Some (PyInt 0)) = Ok 0 /\
  (forall x, int x = Ok 0 -> normalize (Some x) = Ok 0) /\
  (forall timeout, normalize timeout = Ok 0 ->
     poll socks timeout fresh p rest = ([NativePoll 0], answer p)).
Proof.
  split; [reflexivity|]. split; [|split; [|split; [reflexivity|split]]].
  - intros x t Hx Ht. unfold normalize. rewrite Hx.
    destruct (Z.ltb_spec t 0); [reflexivity | lia].
  - intros timeout Hn. split; [|split].
    + rewrite (poll_indefinite _ _ _ _ _ Hn). cbn [fst].
      apply poll_loop_no_timer.
    + intros evs. rewrite (poll_indefinite _ _ _ _ _ Hn). cbn [snd].
      intros H. apply (poll_loop_returns_events socks (-1) rest ltac:(lia) None p evs).
      destruct (poll_loop socks (-1) None p rest) as [tr [a|[]|]];
        cbn [snd] in *; congruence.
    + intros l n Hl. rewrite (poll_indefinite _ _ _ _ _ Hn). cbn [snd].
      rewrite (poll_loop_keeps_waiting socks l n Hl None); [reflexivity | now left].
  - intros x Hx. unfold normalize. now rewrite Hx.
  - intros timeout Hn. now apply poll_zero.
Qed.

Lemma poll_timeout_normalized_witness :
  normalize (Some (PyInt (-5))) = Ok (-1) /\
  (poll [(IntFd 3, POLLIN)] (Some (PyInt (-5))) 0%nat (Done [])
     (repeat (Activity, Done []) 4)).2 = Suspended /\
  poll [(IntFd 3, POLLIN)] (Some (PyInt 0)) 0%nat (Done []) []
    = ([NativePoll 0], Returned []) /\
  poll [(IntFd 3, POLLIN)] (Some (PyFloat minus_half)) 0%nat (Done []) []
    = ([NativePoll 0], Returned []).
Proof.
  destruct (poll_timeout_normalized [(IntFd 3, POLLIN)] 0%nat (Done []) [])
    as (_ & Hneg & Hwait & _ & Hint & Hzero).
  split; [exact (Hneg (PyInt (-5)) (-5) eq_refl eq_refl)|].
  split; [|split].
  - exact (proj2 (proj2 (Hwait (Some (PyInt (-5))) eq_refl)) ([3], [], []) 4%nat eq_refl).
  - exact (Hzero (Some (PyInt 0)) eq_refl).
  - exact (Hzero (Some (PyFloat minus_half)) (Hint (PyFloat minus_half) eq_refl)).
Defined.

(** The timeout -0.5 is negative, yet it is not normalized to -1: poll
    returns the empty result of its single native poll at once, where a
    timeout of -1 goes on to wait on the descriptors. *)
Lemma negative_fraction_returns_at_once :
  valid_binary 53 1024 minus_half = true /\
  negative (PyFloat minus_half) = true /\
  normalize (Some (PyFloat minus_half)) = Ok 0 /\
  normalize (Some (PyFloat minus_half)) <> Ok (-1) /\
  poll [(IntFd 3, POLLIN)] (Some (PyFloat minus_half)) 0%nat (Done []) []
    = ([NativePoll 0], Returned []) /\
  poll [(IntFd 3, POLLIN)] (Some (PyInt (-1))) 0%nat (Done []) []
    = ([NativePoll 0; GetDescriptors; Select [3] [] []], Suspended).
Proof.
  repeat split. discriminate.
Qed.

(** ** The timer of poll *)

Lemma poll_positive socks timeout fresh p rest t :
  normalize timeout = Ok t -> 0 < t ->
  poll socks timeout fresh p rest =
    let '(tr, o) := poll_loop socks t None p rest in
    let o' :=
      match o with
      | Raised (Timeout t') =>
          if bool_decide (t' = fresh) then Returned [] else Raised (Timeout t')
      | _ => o
      end in
    (TimerStart fresh t :: tr ++ (if exited o' then [TimerCancel fresh] else []), o').
Proof.
  intros Hn Ht. unfold poll. rewrite Hn.
  destruct (Z.ltb_spec 0 t); [|lia].
  now destruct (poll_loop socks t None p rest) as [tr o].
Qed.

Lemma timer_event_not_in (x : pevent) (tr : list pevent) :
  is_timer_event x = true ->
  forallb (fun e => negb (is_timer_event e)) tr = true ->
  x ∉ tr.
Proof.
  intros Hx Htr Hin. apply list_elem_of_In in Hin.
  rewrite forallb_forall in Htr. specialize (Htr x Hin).
  now rewrite Hx in Htr.
Qed.

(** C8. With a positive timeout, when the timeout signal reaches the
    greenlet waiting in the loop, poll compares the signal's timer with its
    own by identity: for its own timer it returns the empty list, for any
    other it raises the signal again; in both cases its timer is cancelled
    last.  On every path by which poll returns or raises, a timer that was
    started is cancelled, and the cancellation is the last thing done. *)
Theorem poll_timer_owned_and_cancelled socks timeout fresh p rest :
  (forall t tr t', normalize timeout = Ok t -> 0 < t ->
     poll_loop socks t None p rest = (tr, Raised (Timeout t')) ->
     (t' = fresh ->
        poll socks timeout fresh p rest
          = (TimerStart fresh t :: tr ++ [TimerCancel fresh], Returned [])) /\
     (t' <> fresh ->
        poll socks timeout fresh p rest
          = (TimerStart fresh t :: tr ++ [TimerCancel fresh], Raised (Timeout t')))) /\
  (forall t, normalize timeout = Ok t -> 0 < t ->
     head (poll socks timeout fresh p rest).1 = Some (TimerStart fresh t)) /\
  (forall x ms,
     exited (poll socks timeout fresh p rest).2 = true ->
     TimerStart x ms ∈ (poll socks timeout fresh p rest).1 ->
     last (poll socks timeout fresh p rest).1 = Some (TimerCancel x)).
Proof.
  split; [|split].
  - intros t tr t' Hn Ht Hloop. rewrite (poll_positive _ _ _ _ _ _ Hn Ht), Hloop.
    split; intros Hid.
    + now rewrite bool_decide_eq_true_2.
    + now rewrite bool_decide_eq_false_2.
  - intros t Hn Ht. rewrite (poll_positive _ _ _ _ _ _ Hn Ht).
    now destruct (poll_loop socks t None p rest) as [tr o].
  - intros x ms. unfold poll.
    destruct (normalize timeout) as [t|e]; [|intros _ Hin; now apply elem_of_nil in Hin].
    pose proof (poll_loop_no_timer socks t rest None p) as Hnt.
    destruct (poll_loop socks t None p rest) as [tr o]. cbn [fst] in Hnt.
    destruct (0 <? t); cbn [fst snd].
    + intros Hex. rewrite Hex. intros Hin.
      rewrite app_assoc, last_snoc.
      apply elem_of_app in Hin as [Hin|Hin].
      * apply list_elem_of_singleton in Hin. congruence.
      * apply elem_of_app in Hin as [Hin|Hin].
        -- now apply (timer_event_not_in (TimerStart x ms)) in Hin.
        -- apply list_elem_of_singleton in Hin. discriminate.
    + intros _ Hin. rewrite app_nil_r in Hin. cbn [app] in Hin.
      now apply (timer_event_not_in (TimerStart x ms)) in Hin.
Qed.

Lemma poll_timer_owned_and_cancelled_witness :
  poll [(IntFd 3, POLLIN)] (Some (PyInt 250)) 5%nat (Done [])
       [(TimedOut 5%nat, Done [])]
    = ([TimerStart 5%nat 250; NativePoll 0; GetDescriptors; Select [3] [] [];
        TimerCancel 5%nat], Returned []) /\
  poll [(IntFd 3, POLLIN)] (Some (PyInt 250)) 5%nat (Done [])
       [(TimedOut 9%nat, Done [])]
    = ([TimerStart 5%nat 250; NativePoll 0; GetDescriptors; Select [3] [] [];
        TimerCancel 5%nat], Raised (Timeout 9%nat)) /\
  last (poll [(IntFd 3, POLLIN)] (Some (PyInt 250)) 5%nat
          (Done [(0%nat, POLLIN)]) []).1 = Some (TimerCancel 5%nat).
Proof.
  split; [|split].
  - refine (proj1 (proj1 (poll_timer_owned_and_cancelled [(IntFd 3, POLLIN)]
              (Some (PyInt 250)) 5%nat (Done []) [(TimedOut 5%nat, Done [])])
              250 _ 5%nat eq_refl eq_refl eq_refl) eq_refl).
  - refine (proj2 (proj1 (poll_timer_owned_and_cancelled [(IntFd 3, POLLIN)]
              (Some (PyInt 250)) 5%nat (Done []) [(TimedOut 9%nat, Done [])])
              250 _ 9%nat eq_refl eq_refl eq_refl) _).
    discriminate.
  - refine (proj2 (proj2 (poll_timer_owned_and_cancelled [(IntFd 3, POLLIN)]
              (Some (PyInt 250)) 5%nat (Done [(0%nat, POLLIN)]) []))
              5%nat 250 eq_refl _).
    apply list_elem_of_here.
Defined.

(** ** A send that has to wait

    The loop in action: [n] attempts meet EAGAIN, each wait is ended by the
    watcher firing with the socket writable, and the attempt after the last
    wait succeeds.  The call returns the native answer after [n + 1] native
    calls. *)

Lemma wait_write_fired (s : _Socket.t) :
  wf s ->
  _wait_write [Fire (Done POLLOUT)] s =
    ([CellNew Writable (length (cells s)); CellGet (length (cells s))],
     hub_step (Fire (Done POLLOUT)) (replace Writable s).1, Returned tt).
Proof.
  intros Hwf.
  destruct (replace_fresh Writable s) as (_ & Hattr & Hnew). cbn [attr] in Hattr.
  pose proof (wf_replace Writable s Hwf) as Hwf1.
  destruct (fire_cells POLLOUT _ Hwf1) as [_ Hw]. cbn zeta in Hw.
  change (Z.testbit POLLOUT 1) with true in Hw.
  rewrite orb_true_r, Hattr in Hw.
  rewrite wait_write_eq, get_pending_cons by assumption.
  now rewrite (get_value _ _ _ Hw).
Qed.

Lemma send_loop_completes (n : nat) data flags copy track v :
  forall s, wf s ->
    (send_loop data flags copy track (attempt n v) (retries n v) s).2 = Returned v /\
    length (List.filter is_native_send
              (send_loop data flags copy track (attempt n v) (retries n v) s).1.1)
      = S n.
Proof.
  induction n as [|n IH]; intros s Hwf.
  - split; reflexivity.
  - cbn [attempt retries].
    pose proof (wf_notify s Hwf) as Hwf1.
    rewrite (send_loop_retry _ _ _ _ _ _ _ _ _ _ _ (wait_write_fired _ Hwf1)).
    specialize (IH (hub_step (Fire (Done POLLOUT))
                      (replace Writable (__notify_waiters s).2).1)
                   (wf_hub_step _ _ (wf_replace _ _ Hwf1))) as [IHo IHn].
    destruct (send_loop data flags copy track (attempt n v) (retries n v) _)
      as [[tr s3] o].
    cbn [fst snd] in *. split; [exact IHo|].
    unfold __notify_waiters. cbn [fst app List.filter is_native_send length].
    now rewrite IHn.
Qed.

(** ** A timeout signal without a timer

    Without a positive timeout the local [tout] is never bound: a timeout
    signal of another timer that reaches the waiting greenlet makes the
    identity test itself fail. *)
Lemma poll_signal_without_timer :
  poll [(IntFd 3, POLLIN)] None 5%nat (Done []) [(TimedOut 9%nat, Done [])]
    = ([NativePoll 0; GetDescriptors; Select [3] [] []],
       Raised (UnboundLocalError "tout")).
Proof. reflexivity. Qed.

(** * Further properties of the socket *)

(** ** Invariants of the state, through every operation

    A property of the socket that resolving a cell, replacing an attribute
    and closing keep is kept by the handler, by everything the hub does
    during a wait, and by send, recv and getsockopt whatever the script. *)
Section Invariant.

Variable I : _Socket.t -> Prop.
Hypothesis I_set : forall l s, I s -> I (set l s).
Hypothesis I_set_exception : forall l e s, I s -> I (set_exception l e s).
Hypothesis I_replace : forall d s, I s -> I (replace d s).1.
Hypothesis I_close : forall s, I s -> I (close s).2.

Lemma inv_notify (s : _Socket.t) : I s -> I (__notify_waiters s).2.
Proof. intros H. unfold __notify_waiters. cbn [snd]. now do 2 apply I_set. Qed.

Lemma inv_state_changed (q : native Z) (s : _Socket.t) :
  I s -> I (__state_changed q s).2.
Proof.
  intros H. unfold __state_changed.
  destruct (closed s); [|destruct q as [events|errno msg]].
  - cbn [snd]. now do 2 apply I_set.
  - destruct (truthy (Z.land events POLLOUT)), (truthy (Z.land events POLLIN));
      cbn [fst snd]; repeat apply I_set; exact H.
  - cbn [snd]. now do 2 apply I_set_exception.
Qed.

Lemma inv_hub_step (ev : hub_event) (s : _Socket.t) : I s -> I (hub_step ev s).
Proof.
  intros H. destruct ev; cbn [hub_step].
  - now apply inv_state_changed.
  - now apply inv_notify.
  - now apply I_replace, inv_notify.
  - now apply I_close.
Qed.

Lemma inv_get (l : loc) (evs : list hub_event) :
  forall s, I s -> I (get l evs s).1.
Proof.
  induction evs as [|ev evs IH]; intros s H; cbn [get].
  - now destruct (cells s !! l) as [[]|].
  - destruct (cells s !! l) as [[]|]; try exact H;
      apply IH; now apply inv_hub_step.
Qed.

Lemma inv_wait_write (evs : list hub_event) (s : _Socket.t) :
  I s -> I (_wait_write evs s).1.2.
Proof.
  intros H. rewrite wait_write_eq. cbn [fst snd].
  apply inv_get. now apply I_replace.
Qed.

Lemma inv_wait_read (evs : list hub_event) (s : _Socket.t) :
  I s -> I (_wait_read evs s).1.2.
Proof.
  intros H. rewrite wait_read_eq. cbn [fst snd].
  apply inv_get. now apply I_replace.
Qed.

Lemma inv_send_loop data flags copy track rest :
  forall r s, I s -> I (send_loop data flags copy track r rest s).1.2.
Proof.
  induction rest as [|[evs r'] rest IH]; intros r s H;
    (destruct r as [v|errno msg]; [exact H|]);
    cbn [send_loop]; (destruct (negb (errno =? EAGAIN)); [exact H|]);
    pose proof (inv_notify s H) as H1;
    destruct (__notify_waiters s) as [tr1 s1]; cbn [snd] in H1; cbn [woken].
  - pose proof (inv_wait_write [] s1 H1) as H2.
    destruct (_wait_write [] s1) as [[tr2 s2] o]. now destruct o.
  - pose proof (inv_wait_write evs s1 H1) as H2.
    destruct (_wait_write evs s1) as [[tr2 s2] o]. cbn [fst snd] in H2.
    destruct o as [[]|e|]; try exact H2.
    specialize (IH r' s2 H2).
    now destruct (send_loop data flags copy track r' rest s2) as [[tr3 s3] o3].
Qed.

Lemma inv_recv_loop flags copy track rest :
  forall r s, I s -> I (recv_loop flags copy track r rest s).1.2.
Proof.
  induction rest as [|[evs r'] rest IH]; intros r s H;
    (destruct r as [v|errno msg]; [exact H|]);
    cbn [recv_loop]; (destruct (negb (errno =? EAGAIN)); [exact H|]);
    pose proof (inv_notify s H) as H1;
    destruct (__notify_waiters s) as [tr1 s1]; cbn [snd] in H1; cbn [woken].
  - pose proof (inv_wait_read [] s1 H1) as H2.
    destruct (_wait_read [] s1) as [[tr2 s2] o]. now destruct o.
  - pose proof (inv_wait_read evs s1 H1) as H2.
    destruct (_wait_read evs s1) as [[tr2 s2] o]. cbn [fst snd] in H2.
    destruct o as [[]|e|]; try exact H2.
    specialize (IH r' s2 H2).
    now destruct (recv_loop flags copy track r' rest s2) as [[tr3 s3] o3].
Qed.

Lemma inv_finally_notify {A} (body : list event * t * outcome A) :
  I body.1.2 -> I (finally_notify body).1.2.
Proof.
  destruct body as [[tr s] o]. cbn [fst snd]. intros H. unfold finally_notify.
  destruct (exited o); [|exact H].
  pose proof (inv_notify s H) as H1.
  now destruct (__notify_waiters s) as [tr1 s1].
Qed.

Lemma inv_send data flags copy track r rest s :
  I s -> I (send data flags copy track r rest s).1.2.
Proof.
  intros H. unfold send. apply inv_finally_notify. unfold __send.
  destruct (truthy (Z.land flags NOBLOCK)); [exact H|].
  now apply inv_send_loop.
Qed.

Lemma inv_recv flags copy track r rest s :
  I s -> I (recv flags copy track r rest s).1.2.
Proof.
  intros H. unfold recv. apply inv_finally_notify. unfold __recv.
  destruct (truthy (Z.land flags NOBLOCK)); [exact H|].
  now apply inv_recv_loop.
Qed.

Lemma inv_getsockopt opt r s : I s -> I (getsockopt opt r s).1.2.
Proof. intros H. unfold getsockopt. now apply inv_finally_notify. Qed.

End Invariant.

(** X1. The two attributes refer to two different cells of the store from
    construction on: every operation of the socket, and everything the hub
    does to it while a call waits, keeps that. *)
Theorem attributes_stay_distinct (s : _Socket.t) :
  wf s ->
  (forall q, wf (__state_changed q s).2) /\
  wf (close s).2 /\
  (forall data flags copy track r rest,
     wf (send data flags copy track r rest s).1.2) /\
  (forall flags copy track r rest, wf (recv flags copy track r rest s).1.2) /\
  (forall opt r, wf (getsockopt opt r s).1.2) /\
  (forall api fd ctx ty s', (__init__ api fd ctx ty).2 = Ok s' -> wf s').
Proof.
  intros H. split; [|split; [|split; [|split; [|split]]]].
  - intros q. now apply wf_state_changed.
  - now apply wf_close.
  - intros. apply (inv_send wf wf_set wf_set_exception wf_replace wf_close).
    exact H.
  - intros. apply (inv_recv wf wf_set wf_set_exception wf_replace wf_close).
    exact H.
  - intros. apply (inv_getsockopt wf wf_set). exact H.
  - intros api fd ctx ty s'. apply wf_init.
Qed.

Lemma attributes_stay_distinct_witness :
  wf (send (PyBytes "hi") 0 true false (Fail EAGAIN None)
        [([Rewait Readable; Fire (Done POLLOUT)], Done PyNone)] fresh_socket).1.2.
Proof.
  assert (Hwf : wf fresh_socket) by (repeat split; simpl; [congruence | lia | lia]).
  exact (proj1 (proj2 (proj2 (attributes_stay_distinct fresh_socket Hwf)))
           (PyBytes "hi") 0 true false (Fail EAGAIN None)
           [([Rewait Readable; Fire (Done POLLOUT)], Done PyNone)]).
Defined.

(** ** Resolved cells stay resolved *)

Lemma resolved_insert (h : list cell) (l l' : loc) (c : cell) :
  c <> Pending -> resolved h l = true -> resolved (<[l' := c]> h) l = true.
Proof.
  intros Hc. unfold resolved. rewrite list_lookup_insert.
  destruct (decide (l' = l /\ (l' < length h)%nat)); [|trivial].
  intros _. now destruct c.
Qed.

Lemma resolved_set (l l' : loc) (s : _Socket.t) :
  resolved (cells s) l = true -> resolved (cells (set l' s)) l = true.
Proof. now apply resolved_insert. Qed.

Lemma resolved_set_exception (l l' : loc) (e : exn) (s : _Socket.t) :
  resolved (cells s) l = true -> resolved (cells (set_exception l' e s)) l = true.
Proof. now apply resolved_insert. Qed.

Lemma resolved_replace (l : loc) (d : direction) (s : _Socket.t) :
  resolved (cells s) l = true -> resolved (cells (replace d s).1) l = true.
Proof.
  unfold resolved. intros H.
  assert (Hl : (l < length (cells s))%nat).
  { destruct (cells s !! l) eqn:E; [|discriminate]. now apply lookup_lt_Some in E. }
  unfold replace, alloc. destruct d; cbn [fst cells]; now rewrite lookup_app_l.
Qed.

Lemma resolved_close (l : loc) (s : _Socket.t) :
  resolved (cells s) l = true -> resolved (cells (close s).2) l = true.
Proof.
  intros H. unfold close.
  destruct (negb (closed s)), (_state_event s) as [w|]; try exact H.
  unfold stop_watcher. destruct (w_api w); exact H.
Qed.

(** X2. No operation returns a resolved cell to pending: a cell that holds
    a value or an error before the handler runs, or before a send, recv,
    getsockopt or close, is still resolved afterwards, whatever happened
    during the waits.  A cell is made pending again only by being replaced
    with a new one. *)
Theorem resolved_cells_stay_resolved (l : loc) (s : _Socket.t) :
  resolved (cells s) l = true ->
  (forall q, resolved (cells (__state_changed q s).2) l = true) /\
  resolved (cells (close s).2) l = true /\
  (forall data flags copy track r rest,
     resolved (cells (send data flags copy track r rest s).1.2) l = true) /\
  (forall flags copy track r rest,
     resolved (cells (recv flags copy track r rest s).1.2) l = true) /\
  (forall opt r, resolved (cells (getsockopt opt r s).1.2) l = true).
Proof.
  intros H.
  pose (I := fun s' : _Socket.t => resolved (cells s') l = true).
  assert (I1 : forall l' s', I s' -> I (set l' s')) by (intros; now apply resolved_set).
  assert (I2 : forall l' e s', I s' -> I (set_exception l' e s'))
    by (intros; now apply resolved_set_exception).
  assert (I3 : forall d s', I s' -> I (replace d s').1)
    by (intros; now apply resolved_replace).
  assert (I4 : forall s', I s' -> I (close s').2) by (intros; now apply resolved_close).
  split; [|split; [|split; [|split]]].
  - intros q. exact (inv_state_changed I I1 I2 q s H).
  - exact (I4 s H).
  - intros. exact (inv_send I I1 I2 I3 I4 _ _ _ _ _ _ s H).
  - intros. exact (inv_recv I I1 I2 I3 I4 _ _ _ _ _ s H).
  - intros. exact (inv_getsockopt I I1 _ _ s H).
Qed.

Lemma resolved_cells_stay_resolved_witness :
  resolved
    (cells (recv 0 true false (Fail EAGAIN None) [([Fire (Done 0)], Done PyNone)]
              (__state_changed (Done POLLOUT) fresh_socket).2).1.2) 1%nat = true.
Proof.
  exact (proj1 (proj2 (proj2 (proj2
           (resolved_cells_stay_resolved 1%nat
              (__state_changed (Done POLLOUT) fresh_socket).2 eq_refl))))
           0 true false (Fail EAGAIN None) [([Fire (Done 0)], Done PyNone)]).
Defined.

(** ** The notification that ends every operation *)

Lemma exited_answer {A} (r : native A) : exited (answer r) = true.
Proof. now destruct r. Qed.

Lemma finally_notify_cells {A} (body : list event * t * outcome A) :
  wf body.1.2 -> exited body.2 = true ->
  cells (finally_notify body).1.2 !! __readable (finally_notify body).1.2 = Some Value /\
  cells (finally_notify body).1.2 !! __writable (finally_notify body).1.2 = Some Value /\
  (finally_notify body).2 = body.2.
Proof.
  destruct body as [[tr s] o]. cbn [fst snd]. intros Hwf Hex.
  unfold finally_notify. rewrite Hex.
  destruct (notify_cells s Hwf) as [Hr Hw].
  unfold __notify_waiters in *. cbn [fst snd] in *.
  rewrite !readable_set, !writable_set. now repeat split.
Qed.

(** X3. When a send, a recv or a getsockopt returns or raises (with or
    without the no-block flag, after a success, a hard error, or an error
    delivered to its wait), the two cells the attributes then refer to are
    resolved with a value, and the outcome of the call is that of its body:
    the closing notification changes no result.  getsockopt always ends
    this way. *)
Theorem operations_end_notified (s : _Socket.t) :
  wf s ->
  (forall data flags copy track r rest,
     let res := send data flags copy track r rest s in
     exited res.2 = true ->
     cells res.1.2 !! __readable res.1.2 = Some Value /\
     cells res.1.2 !! __writable res.1.2 = Some Value /\
     res.2 = (__send data flags copy track r rest s).2) /\
  (forall flags copy track r rest,
     let res := recv flags copy track r rest s in
     exited res.2 = true ->
     cells res.1.2 !! __readable res.1.2 = Some Value /\
     cells res.1.2 !! __writable res.1.2 = Some Value /\
     res.2 = (__recv flags copy track r rest s).2) /\
  (forall opt r,
     let res := getsockopt opt r s in
     cells res.1.2 !! __readable res.1.2 = Some Value /\
     cells res.1.2 !! __writable res.1.2 = Some Value /\
     res.2 = answer r).
Proof.
  intros Hwf. split; [|split].
  - intros data flags copy track r rest. cbn zeta. intros Hex.
    assert (Hb : wf (__send data flags copy track r rest s).1.2).
    { unfold __send. destruct (truthy (Z.land flags NOBLOCK)); [exact Hwf|].
      now apply (inv_send_loop wf wf_set wf_set_exception wf_replace wf_close). }
    assert (Hex' : exited (__send data flags copy track r rest s).2 = true).
    { unfold send, finally_notify in Hex.
      destruct (__send data flags copy track r rest s) as [[tr s'] o].
      cbn [snd]. destruct (exited o) eqn:E; [reflexivity|].
      cbn [snd] in Hex. congruence. }
    exact (finally_notify_cells _ Hb Hex').
  - intros flags copy track r rest. cbn zeta. intros Hex.
    assert (Hb : wf (__recv flags copy track r rest s).1.2).
    { unfold __recv. destruct (truthy (Z.land flags NOBLOCK)); [exact Hwf|].
      now apply (inv_recv_loop wf wf_set wf_set_exception wf_replace wf_close). }
    assert (Hex' : exited (__recv flags copy track r rest s).2 = true).
    { unfold recv, finally_notify in Hex.
      destruct (__recv flags copy track r rest s) as [[tr s'] o].
      cbn [snd]. destruct (exited o) eqn:E; [reflexivity|].
      cbn [snd] in Hex. congruence. }
    exact (finally_notify_cells _ Hb Hex').
  - intros opt r. cbn zeta.
    exact (finally_notify_cells (__getsockopt opt r s) Hwf (exited_answer r)).
Qed.

Lemma operations_end_notified_witness :
  let res := send (PyBytes "hi") 0 true false (Fail EAGAIN None)
               [([Fire (Fail 156384765 None)], Done PyNone)] fresh_socket in
  res.2 = Raised (ZMQError 156384765 None) /\
  cells res.1.2 !! __readable res.1.2 = Some Value /\
  cells res.1.2 !! __writable res.1.2 = Some Value.
Proof.
  assert (Hwf : wf fresh_socket) by (repeat split; simpl; [congruence | lia | lia]).
  destruct (proj1 (operations_end_notified fresh_socket Hwf)
              (PyBytes "hi") 0 true false (Fail EAGAIN None)
              [([Fire (Fail 156384765 None)], Done PyNone)] eq_refl)
    as (Hr & Hw & Ho).
  cbn zeta. split; [|split]; [rewrite Ho; reflexivity | exact Hr | exact Hw].
Defined.

(** ** Native calls are never blocking *)

Lemma send_loop_nonblocking data flags copy track rest :
  truthy (Z.land flags NOBLOCK) = true ->
  forall r s,
    forallb nonblocking_call (send_loop data flags copy track r rest s).1.1 = true.
Proof.
  intros Hf.
  induction rest as [|[evs r'] rest IH]; intros r s;
    (destruct r as [v|errno msg]; [cbn; now rewrite Hf|]);
    cbn [send_loop]; (destruct (negb (errno =? EAGAIN)); [cbn; now rewrite Hf|]);
    unfold __notify_waiters, _wait_write, replace, alloc; cbn [woken fst snd].
  - destruct (get _ [] _) as [s2 o]. destruct o; cbn; now rewrite Hf.
  - destruct (get _ evs _) as [s2 o].
    destruct o as [[]|e|]; try (cbn; now rewrite Hf).
    specialize (IH r' s2).
    destruct (send_loop data flags copy track r' rest s2) as [[tr3 s3] o3].
    cbn in *. now rewrite Hf.
Qed.

Lemma recv_loop_nonblocking flags copy track rest :
  truthy (Z.land flags NOBLOCK) = true ->
  forall r s,
    forallb nonblocking_call (recv_loop flags copy track r rest s).1.1 = true.
Proof.
  intros Hf.
  induction rest as [|[evs r'] rest IH]; intros r s;
    (destruct r as [v|errno msg]; [cbn; now rewrite Hf|]);
    cbn [recv_loop]; (destruct (negb (errno =? EAGAIN)); [cbn; now rewrite Hf|]);
    unfold __notify_waiters, _wait_read, replace, alloc; cbn [woken fst snd].
  - destruct (get _ [] _) as [s2 o]. destruct o; cbn; now rewrite Hf.
  - destruct (get _ evs _) as [s2 o].
    destruct o as [[]|e|]; try (cbn; now rewrite Hf).
    specialize (IH r' s2).
    destruct (recv_loop flags copy track r' rest s2) as [[tr3 s3] o3].
    cbn in *. now rewrite Hf.
Qed.

Lemma finally_notify_forallb {A} (f : event -> bool)
    (body : list event * t * outcome A) :
  (forall l, f (CellSet l) = true) ->
  forallb f body.1.1 = true -> forallb f (finally_notify body).1.1 = true.
Proof.
  destruct body as [[tr s] o]. cbn [fst]. intros Hset H.
  unfold finally_notify, __notify_waiters.
  destruct (exited o); cbn [fst]; [|exact H].
  rewrite forallb_app, H. cbn. now rewrite !Hset.
Qed.

(** X4. Whatever flags the caller gives and however many times the loop
    goes round, every native send or recv that a send or recv makes carries
    the no-block flag: the wrapped socket never makes a native call that
    could block the thread. *)
Theorem native_calls_never_block data flags copy track r rest (s : _Socket.t) :
  forallb nonblocking_call (send data flags copy track r rest s).1.1 = true /\
  forallb nonblocking_call (recv flags copy track r rest s).1.1 = true.
Proof.
  split.
  - unfold send. apply finally_notify_forallb; [reflexivity|]. unfold __send.
    destruct (truthy (Z.land flags NOBLOCK)) eqn:E.
    + cbn. now rewrite E.
    + apply send_loop_nonblocking, truthy_NOBLOCK_added.
  - unfold recv. apply finally_notify_forallb; [reflexivity|]. unfold __recv.
    destruct (truthy (Z.land flags NOBLOCK)) eqn:E.
    + cbn. now rewrite E.
    + apply recv_loop_nonblocking, truthy_NOBLOCK_added.
Qed.

(** ** Calls that have to wait, to the end *)

Lemma wait_read_fired (s : _Socket.t) :
  wf s ->
  _wait_read [Fire (Done POLLIN)] s =
    ([CellNew Readable (length (cells s)); CellGet (length (cells s))],
     hub_step (Fire (Done POLLIN)) (replace Readable s).1, Returned tt).
Proof.
  intros Hwf.
  destruct (replace_fresh Readable s) as (_ & Hattr & Hnew). cbn [attr] in Hattr.
  pose proof (wf_replace Readable s Hwf) as Hwf1.
  destruct (fire_cells POLLIN _ Hwf1) as [Hr _]. cbn zeta in Hr.
  change (Z.testbit POLLIN 0) with true in Hr.
  rewrite orb_true_r, Hattr in Hr.
  rewrite wait_read_eq, get_pending_cons by assumption.
  now rewrite (get_value _ _ _ Hr).
Qed.

Lemma recv_loop_completes (n : nat) flags copy track v :
  forall s, wf s ->
    (recv_loop flags copy track (attempt n v) (retries_read n v) s).2 = Returned v /\
    length (List.filter is_native_recv
              (recv_loop flags copy track (attempt n v) (retries_read n v) s).1.1)
      = S n.
Proof.
  induction n as [|n IH]; intros s Hwf.
  - split; reflexivity.
  - cbn [attempt retries_read].
    pose proof (wf_notify s Hwf) as Hwf1.
    rewrite (recv_loop_retry _ _ _ _ _ _ _ _ _ _ (wait_read_fired _ Hwf1)).
    specialize (IH (hub_step (Fire (Done POLLIN))
                      (replace Readable (__notify_waiters s).2).1)
                   (wf_hub_step _ _ (wf_replace _ _ Hwf1))) as [IHo IHn].
    destruct (recv_loop flags copy track (attempt n v) (retries_read n v) _)
      as [[tr s3] o].
    cbn [fst snd] in *. split; [exact IHo|].
    unfold __notify_waiters. cbn [fst app List.filter is_native_recv length].
    now rewrite IHn.
Qed.

Lemma filter_finally_notify {A} (f : event -> bool)
    (body : list event * t * outcome A) :
  (forall l, f (CellSet l) = false) ->
  List.filter f (finally_notify body).1.1 = List.filter f body.1.1.
Proof.
  destruct body as [[tr s] o]. cbn [fst]. intros Hset.
  unfold finally_notify, __notify_waiters.
  destruct (exited o); cbn [fst]; [|reflexivity].
  rewrite List.filter_app. cbn. rewrite !Hset. apply app_nil_r.
Qed.

Lemma outcome_finally_notify {A} (body : list event * t * outcome A) :
  (finally_notify body).2 = body.2.
Proof.
  destruct body as [[tr s] o]. unfold finally_notify.
  destruct (exited o); [|reflexivity].
  now destruct (__notify_waiters s).
Qed.

(** X5. A send without the no-block flag whose native call answers EAGAIN
    [n] times, each wait being ended by the watcher firing with the socket
    writable, returns the value of the native call that succeeds, after
    exactly [n + 1] native calls; and so does a recv, with the socket
    readable at each firing. *)
Theorem blocked_calls_complete (n : nat) data flags copy track v (s : _Socket.t) :
  wf s ->
  truthy (Z.land flags NOBLOCK) = false ->
  (send data flags copy track (attempt n v) (retries n v) s).2 = Returned v /\
  length (List.filter is_native_send
            (send data flags copy track (attempt n v) (retries n v) s).1.1) = S n /\
  (recv flags copy track (attempt n v) (retries_read n v) s).2 = Returned v /\
  length (List.filter is_native_recv
            (recv flags copy track (attempt n v) (retries_read n v) s).1.1) = S n.
Proof.
  intros Hwf Hf. unfold send, recv.
  rewrite !outcome_finally_notify, !filter_finally_notify by reflexivity.
  unfold __send, __recv. rewrite Hf.
  destruct (send_loop_completes n data (Z.lor flags NOBLOCK) copy track v s Hwf).
  destruct (recv_loop_completes n (Z.lor flags NOBLOCK) copy track v s Hwf).
  now repeat split.
Qed.

Lemma blocked_calls_complete_witness :
  (send (PyBytes "hi") 0 true false (attempt 3 PyNone) (retries 3 PyNone)
     fresh_socket).2 = Returned PyNone /\
  (recv 0 true false (attempt 2 (PyBytes "hi")) (retries_read 2 (PyBytes "hi"))
     fresh_socket).2 = Returned (PyBytes "hi").
Proof.
  assert (Hwf : wf fresh_socket) by (repeat split; simpl; [congruence | lia | lia]).
  split.
  - exact (proj1 (blocked_calls_complete 3 (PyBytes "hi") 0 true false PyNone
                    fresh_socket Hwf eq_refl)).
  - exact (proj1 (proj2 (proj2 (blocked_calls_complete 2 PyNone 0 true false
                    (PyBytes "hi") fresh_socket Hwf eq_refl)))).
Defined.

(** ** An error of the readiness query, during a wait *)

Lemma closed_set (l : loc) (s : _Socket.t) : closed (set l s) = closed s.
Proof. reflexivity. Qed.

Lemma closed_replace (d : direction) (s : _Socket.t) :
  closed (replace d s).1 = closed s.
Proof. now destruct d. Qed.

Lemma closed_notify (s : _Socket.t) : closed (__notify_waiters s).2 = closed s.
Proof. reflexivity. Qed.

Lemma fire_error_cells errno msg (s : _Socket.t) :
  wf s -> closed s = false ->
  let s' := hub_step (Fire (Fail errno msg)) s in
  cells s' !! __readable s = Some (Exception (ZMQError errno msg)) /\
  cells s' !! __writable s = Some (Exception (ZMQError errno msg)).
Proof.
  intros Hwf Hc. cbn zeta. unfold hub_step, __state_changed. rewrite Hc.
  cbn [snd]. now apply (set_exception_both (ZMQError errno msg)).
Qed.

Lemma wait_write_query_error errno msg evs (s : _Socket.t) :
  wf s -> closed s = false ->
  (_wait_write (Fire (Fail errno msg) :: evs) s).2 = Raised (ZMQError errno msg).
Proof.
  intros Hwf Hc.
  destruct (replace_fresh Writable s) as (_ & Hattr & Hnew). cbn [attr] in Hattr.
  pose proof (wf_replace Writable s Hwf) as Hwf1.
  assert (Hc1 : closed (replace Writable s).1 = false)
    by now rewrite closed_replace.
  destruct (fire_error_cells errno msg _ Hwf1 Hc1) as [_ Hw]. cbn zeta in Hw.
  rewrite Hattr in Hw.
  rewrite wait_write_eq, get_pending_cons by assumption.
  destruct evs; cbn [get snd]; now rewrite Hw.
Qed.

Lemma wait_read_query_error errno msg evs (s : _Socket.t) :
  wf s -> closed s = false ->
  (_wait_read (Fire (Fail errno msg) :: evs) s).2 = Raised (ZMQError errno msg).
Proof.
  intros Hwf Hc.
  destruct (replace_fresh Readable s) as (_ & Hattr & Hnew). cbn [attr] in Hattr.
  pose proof (wf_replace Readable s Hwf) as Hwf1.
  assert (Hc1 : closed (replace Readable s).1 = false)
    by now rewrite closed_replace.
  destruct (fire_error_cells errno msg _ Hwf1 Hc1) as [Hr _]. cbn zeta in Hr.
  rewrite Hattr in Hr.
  rewrite wait_read_eq, get_pending_cons by assumption.
  destruct evs; cbn [get snd]; now rewrite Hr.
Qed.

Lemma send_loop_wait_raises data flags copy track msg evs r' rest s e :
  (_wait_write evs (__notify_waiters s).2).2 = Raised e ->
  (send_loop data flags copy track (Fail EAGAIN msg) ((evs, r') :: rest) s).2
    = Raised e /\
  List.filter is_native_send
    (send_loop data flags copy track (Fail EAGAIN msg) ((evs, r') :: rest) s).1.1
    = [NativeSend data flags copy track].
Proof.
  intros Hw. cbn [send_loop]. change (negb (EAGAIN =? EAGAIN)) with false.
  cbn iota. unfold __notify_waiters in *. cbn [woken snd] in *.
  rewrite wait_write_eq in *. cbn [snd] in Hw. rewrite Hw. split; reflexivity.
Qed.

Lemma recv_loop_wait_raises flags copy track msg evs r' rest s e :
  (_wait_read evs (__notify_waiters s).2).2 = Raised e ->
  (recv_loop flags copy track (Fail EAGAIN msg) ((evs, r') :: rest) s).2
    = Raised e /\
  List.filter is_native_recv
    (recv_loop flags copy track (Fail EAGAIN msg) ((evs, r') :: rest) s).1.1
    = [NativeRecv flags copy track].
Proof.
  intros Hw. cbn [recv_loop]. change (negb (EAGAIN =? EAGAIN)) with false.
  cbn iota. unfold __notify_waiters in *. cbn [woken snd] in *.
  rewrite wait_read_eq in *. cbn [snd] in Hw. rewrite Hw. split; reflexivity.
Qed.

(** X6. While a send or recv on an open socket waits after an EAGAIN, a
    firing of the watcher whose query of the event mask fails with
    [ZMQError(errno)] ends the call: it raises that very error, whatever its
    code (EAGAIN included: only errors of the native send or recv are
    retried), and the native operation is not attempted again. *)
Theorem query_error_ends_the_call flags copy track (s : _Socket.t) :
  wf s -> closed s = false ->
  truthy (Z.land flags NOBLOCK) = false ->
  forall m0 errno msg evs r' rest,
    (forall data,
       let res := send data flags copy track (Fail EAGAIN m0)
                    ((Fire (Fail errno msg) :: evs, r') :: rest) s in
       res.2 = Raised (ZMQError errno msg) /\
       List.filter is_native_send res.1.1
         = [NativeSend data (Z.lor flags NOBLOCK) copy track]) /\
    (let res := recv flags copy track (Fail EAGAIN m0)
                  ((Fire (Fail errno msg) :: evs, r') :: rest) s in
     res.2 = Raised (ZMQError errno msg) /\
     List.filter is_native_recv res.1.1
       = [NativeRecv (Z.lor flags NOBLOCK) copy track]).
Proof.
  intros Hwf Hc Hf m0 errno msg evs r' rest.
  pose proof (wf_notify s Hwf) as Hwf1.
  assert (Hc1 : closed (__notify_waiters s).2 = false) by exact Hc.
  split.
  - intros data. cbn zeta. unfold send.
    rewrite outcome_finally_notify, filter_finally_notify by reflexivity.
    unfold __send. rewrite Hf.
    apply send_loop_wait_raises. now apply wait_write_query_error.
  - cbn zeta. unfold recv.
    rewrite outcome_finally_notify, filter_finally_notify by reflexivity.
    unfold __recv. rewrite Hf.
    apply recv_loop_wait_raises. now apply wait_read_query_error.
Qed.

Lemma query_error_ends_the_call_witness :
  (send (PyBytes "hi") 0 true false (Fail EAGAIN None)
     [([Fire (Fail EAGAIN None)], Done PyNone)] fresh_socket).2
  = Raised (ZMQError EAGAIN None).
Proof.
  assert (Hwf : wf fresh_socket) by (repeat split; simpl; [congruence | lia | lia]).
  exact (proj1 (proj1 (query_error_ends_the_call 0 true false fresh_socket
                         Hwf eq_refl eq_refl None EAGAIN None [] (Done PyNone) [])
                  (PyBytes "hi"))).
Defined.

(** ** close and the greenlets that wait *)

Lemma cells_close (s : _Socket.t) :
  cells (close s).2 = cells s /\
  __readable (close s).2 = __readable s /\
  __writable (close s).2 = __writable s.
Proof.
  unfold close. destruct (negb (closed s)), (_state_event s) as [w|];
    try (now repeat split).
  unfold stop_watcher. destruct (w_api w); now repeat split.
Qed.

Lemma fire_closed_cells (q : native Z) (s : _Socket.t) :
  wf s -> closed s = true ->
  cells (hub_step (Fire q) s) !! __readable s = Some Value /\
  cells (hub_step (Fire q) s) !! __writable s = Some Value.
Proof.
  intros Hwf Hc. unfold hub_step, __state_changed. rewrite Hc. cbn [snd].
  now apply set_both.
Qed.

(** X7. close resolves no cell and replaces none: a greenlet waiting in a
    send or recv when another greenlet closes the socket stays suspended.
    It is released, with a value, only when the handler runs afterwards and
    finds the socket closed, whatever the event mask would have been. *)
Theorem close_releases_no_waiter (s : _Socket.t) :
  wf s ->
  cells (close s).2 = cells s /\
  (_wait_write [Closing] s).2 = Suspended /\
  (_wait_read [Closing] s).2 = Suspended /\
  (forall q evs, (_wait_write (Closing :: Fire q :: evs) s).2 = Returned tt) /\
  (forall q evs, (_wait_read (Closing :: Fire q :: evs) s).2 = Returned tt).
Proof.
  intros Hwf. split; [apply cells_close|].
  assert (Hgen : forall d,
            cells (hub_step Closing (replace d s).1) !! length (cells s) = Some Pending /\
            forall q, cells (hub_step (Fire q) (hub_step Closing (replace d s).1))
                        !! length (cells s) = Some Value).
  { intros d.
    destruct (replace_fresh d s) as (_ & Hattr & Hnew).
    pose proof (wf_replace d s Hwf) as Hwf1.
    destruct (cells_close (replace d s).1) as (Hcells & Hr & Hw).
    cbn [hub_step]. split; [now rewrite Hcells|].
    intros q.
    destruct (fire_closed_cells q (close (replace d s).1).2
                (wf_close _ Hwf1) (closed_after_close _)) as [Hvr Hvw].
    cbn [hub_step] in *. rewrite Hr in Hvr. rewrite Hw in Hvw.
    destruct d; cbn [attr] in Hattr; rewrite Hattr in *; assumption. }
  destruct (replace_fresh Writable s) as (_ & _ & Hnw).
  destruct (replace_fresh Readable s) as (_ & _ & Hnr).
  destruct (Hgen Writable) as [Hpw Hvw]. destruct (Hgen Readable) as [Hpr Hvr].
  split; [|split; [|split]].
  - rewrite wait_write_eq, get_pending_cons by assumption.
    now rewrite (get_pending_nil _ _ Hpw).
  - rewrite wait_read_eq, get_pending_cons by assumption.
    now rewrite (get_pending_nil _ _ Hpr).
  - intros q evs. rewrite wait_write_eq, get_pending_cons by assumption.
    rewrite get_pending_cons by assumption.
    now rewrite (get_value _ _ _ (Hvw q)).
  - intros q evs. rewrite wait_read_eq, get_pending_cons by assumption.
    rewrite get_pending_cons by assumption.
    now rewrite (get_value _ _ _ (Hvr q)).
Qed.

Lemma close_releases_no_waiter_witness :
  (_wait_write [Closing] fresh_socket).2 = Suspended /\
  (_wait_write [Closing; Fire (Done 0)] fresh_socket).2 = Returned tt.
Proof.
  assert (Hwf : wf fresh_socket) by (repeat split; simpl; [congruence | lia | lia]).
  destruct (close_releases_no_waiter fresh_socket Hwf) as (_ & H1 & _ & H2 & _).
  split; [exact H1 | exact (H2 (Done 0) [])].
Defined.

(** ** The handler run twice *)

Lemma insert_pair_again (h : list cell) (r w : loc) (a b : cell) :
  <[r := a]> (<[w := b]> (<[r := a]> (<[w := b]> h))) = <[r := a]> (<[w := b]> h).
Proof.
  destruct (decide (r = w)) as [->|Hne].
  - now rewrite !list_insert_insert_eq.
  - rewrite (list_insert_insert_ne _ w r) by congruence.
    now rewrite !list_insert_insert_eq.
Qed.

(** X8. The readiness handler only resolves cells: it leaves the closed
    flag, the watcher, the two attributes and the size of the store as they
    are; and running it a second time with the same answer of the query
    changes nothing more, so a repeated notification is harmless. *)
Theorem handler_is_idempotent (q : native Z) (s : _Socket.t) :
  let s' := (__state_changed q s).2 in
  closed s' = closed s /\
  _state_event s' = _state_event s /\
  __readable s' = __readable s /\
  __writable s' = __writable s /\
  length (cells s') = length (cells s) /\
  (__state_changed q s').2 = s'.
Proof.
  cbn zeta. unfold __state_changed.
  destruct (closed s) eqn:Hc; [|destruct q as [events|errno msg]].
  - cbn [snd closed set with_cells]. rewrite Hc. cbn [snd].
    repeat split; try (now rewrite ?length_set).
    unfold set, with_cells. cbn [cells closed context socket_type __readable
                                   __writable _state_event].
    now rewrite insert_pair_again.
  - destruct (truthy (Z.land events POLLOUT)), (truthy (Z.land events POLLIN));
      cbn [fst snd closed set with_cells]; rewrite Hc; cbn [fst snd];
      (repeat split; try (now rewrite ?length_set));
      unfold set, with_cells;
      cbn [cells closed context socket_type __readable __writable _state_event];
      rewrite ?insert_pair_again, ?list_insert_insert_eq; reflexivity.
  - cbn [snd closed set_exception with_cells]. rewrite Hc. cbn [snd].
    repeat split; try (now rewrite ?length_set_exception).
    unfold set_exception, with_cells.
    cbn [cells closed context socket_type __readable __writable _state_event].
    now rewrite insert_pair_again.
Qed.

(** ** The no-block flag given by the caller *)

(** X9. A send or recv called with the no-block flag makes one native call
    with the flags as given and ends with its answer, an EAGAIN included,
    which is raised to the caller: nothing of the script of waits is used,
    no cell is created or awaited, and the only other thing done is the
    closing notification. *)
Theorem noblock_is_one_call flags copy track (s : _Socket.t) :
  truthy (Z.land flags NOBLOCK) = true ->
  (forall data r rest,
     send data flags copy track r rest s =
       ([NativeSend data flags copy track;
         CellSet (__writable s); CellSet (__readable s)],
        (__notify_waiters s).2, answer r)) /\
  (forall r rest,
     recv flags copy track r rest s =
       ([NativeRecv flags copy track;
         CellSet (__writable s); CellSet (__readable s)],
        (__notify_waiters s).2, answer r)) /\
  (forall data msg rest,
     (send data flags copy track (Fail EAGAIN msg) rest s).2
       = Raised (ZMQError EAGAIN msg)).
Proof.
  intros Hf. unfold send, recv, __send, __recv. rewrite Hf.
  split; [|split].
  - intros data r rest. unfold finally_notify. now rewrite exited_answer.
  - intros r rest. unfold finally_notify. now rewrite exited_answer.
  - reflexivity.
Qed.

Lemma noblock_is_one_call_witness :
  (send (PyBytes "hi") NOBLOCK true false (Fail EAGAIN None)
     [([Fire (Done POLLOUT)], Done PyNone)] fresh_socket).2
  = Raised (ZMQError EAGAIN None).
Proof.
  exact (proj2 (proj2 (noblock_is_one_call NOBLOCK true false fresh_socket eq_refl))
           (PyBytes "hi") None [([Fire (Done POLLOUT)], Done PyNone)]).
Defined.

(** * Further properties of the poller *)

(** ** The descriptor lists *)

Lemma add_if_with_bit (flags bit fd : Z) (l : list Z) :
  add_if flags bit fd l = l ++ with_bit bit [(fd, flags)].
Proof.
  unfold add_if, with_bit. cbn [List.filter snd].
  destruct (truthy (Z.land flags bit)); cbn [map fst]; [reflexivity|].
  now rewrite app_nil_r.
Qed.

Lemma with_bit_cons (bit fd flags : Z) (l : list (Z * Z)) :
  with_bit bit ((fd, flags) :: l) = with_bit bit [(fd, flags)] ++ with_bit bit l.
Proof.
  unfold with_bit. cbn [List.filter snd].
  now destruct (truthy (Z.land flags bit)).
Qed.

Lemma get_descriptors_from_resolve (items : list (item * Z)) :
  forall rlist wlist xlist,
    get_descriptors_from items (rlist, wlist, xlist) =
      match resolve_all items with
      | Err e => Err e
      | Ok l =>
          Ok (rlist ++ with_bit POLLIN l, wlist ++ with_bit POLLOUT l,
              xlist ++ with_bit POLLERR l)
      end.
Proof.
  induction items as [|[socket flags] items IH]; intros rlist wlist xlist.
  - cbn. now rewrite !app_nil_r.
  - cbn [get_descriptors_from resolve_all].
    destruct (descriptor socket) as [fd|e]; [|reflexivity].
    rewrite IH. destruct (resolve_all items) as [l|e]; [|reflexivity].
    rewrite !add_if_with_bit, !(with_bit_cons _ fd flags l).
    now rewrite <- !app_assoc.
Qed.

Lemma get_descriptors_resolve (sockets : list (item * Z)) :
  _get_descriptors sockets =
    match resolve_all sockets with
    | Err e => Err e
    | Ok l => Ok (with_bit POLLIN l, with_bit POLLOUT l, with_bit POLLERR l)
    end.
Proof.
  unfold _get_descriptors. now rewrite get_descriptors_from_resolve.
Qed.

(** X10. When every registered item resolves to a descriptor,
    [_get_descriptors] returns three lists: the descriptors registered with
    POLLIN, with POLLOUT and with POLLERR, each in registration order; an
    item is in the lists of exactly the interests its flags hold, and an
    item with none of the three is in no list.  When an item fails to
    resolve, the error of the first such item is the result. *)
Theorem get_descriptors_partitions (sockets : list (item * Z)) :
  _get_descriptors sockets =
    match resolve_all sockets with
    | Err e => Err e
    | Ok l => Ok (with_bit POLLIN l, with_bit POLLOUT l, with_bit POLLERR l)
    end.
Proof.
  unfold _get_descriptors. rewrite get_descriptors_from_resolve.
  now destruct (resolve_all sockets).
Qed.

Lemma resolve_all_In (items : list (item * Z)) :
  forall l, resolve_all items = Ok l ->
  forall fd flags,
    In (fd, flags) l <->
    exists socket, In (socket, flags) items /\ descriptor socket = Ok fd.
Proof.
  induction items as [|[socket flags0] items IH]; intros l Hl fd flags.
  - injection Hl as <-. split; [intros [] | intros (? & [] & _)].
  - cbn [resolve_all] in Hl.
    destruct (descriptor socket) as [fd0|e] eqn:Hd; [|discriminate].
    destruct (resolve_all items) as [l'|e]; [|discriminate].
    injection Hl as <-. specialize (IH l' eq_refl fd flags).
    cbn [In]. split.
    + intros [[= <- <-]|Hin].
      * exists socket. split; [now left | exact Hd].
      * apply IH in Hin as (sk & Hin & Hsk). exists sk. split; [now right | exact Hsk].
    + intros (sk & [[= <- <-]|Hin] & Hsk).
      * left. congruence.
      * right. apply IH. now exists sk.
Qed.

Lemma with_bit_In (n : Z) (l : list (Z * Z)) (fd : Z) :
  0 <= n ->
  In fd (with_bit (2 ^ n) l) <->
  exists flags, In (fd, flags) l /\ Z.testbit flags n = true.
Proof.
  intros Hn. unfold with_bit. rewrite in_map_iff. split.
  - intros ([fd' flags] & <- & Hin). apply filter_In in Hin as [Hin Hb].
    cbn [snd] in Hb. rewrite truthy_land_pow2 in Hb by assumption.
    now exists flags.
  - intros (flags & Hin & Hb). exists (fd, flags). split; [reflexivity|].
    apply filter_In. split; [assumption|]. cbn [snd].
    now rewrite truthy_land_pow2.
Qed.

(** X11. In the lists that [_get_descriptors] returns, a descriptor is in
    the read list exactly when some registered item resolves to it and is
    registered with bit POLLIN (bit 0) in its flags; likewise the write list
    with POLLOUT (bit 1) and the error list with POLLERR (bit 2). *)
Theorem descriptor_lists_membership (sockets : list (item * Z))
    (rlist wlist xlist : list Z) :
  _get_descriptors sockets = Ok (rlist, wlist, xlist) ->
  forall fd,
    (fd ∈ rlist <->
       exists socket flags, (socket, flags) ∈ sockets /\
         descriptor socket = Ok fd /\ Z.testbit flags 0 = true) /\
    (fd ∈ wlist <->
       exists socket flags, (socket, flags) ∈ sockets /\
         descriptor socket = Ok fd /\ Z.testbit flags 1 = true) /\
    (fd ∈ xlist <->
       exists socket flags, (socket, flags) ∈ sockets /\
         descriptor socket = Ok fd /\ Z.testbit flags 2 = true).
Proof.
  rewrite get_descriptors_resolve.
  destruct (resolve_all sockets) as [l|e] eqn:Hl; [|discriminate].
  intros [= <- <- <-] fd.
  assert (Hbit : forall n, 0 <= n ->
            fd ∈ with_bit (2 ^ n) l <->
            exists socket flags, (socket, flags) ∈ sockets /\
              descriptor socket = Ok fd /\ Z.testbit flags n = true).
  { intros n Hn. rewrite list_elem_of_In, (with_bit_In n l fd Hn). split.
    - intros (flags & Hin & Hb).
      apply (resolve_all_In sockets l Hl) in Hin as (socket & Hin & Hd).
      exists socket, flags. now rewrite list_elem_of_In.
    - intros (socket & flags & Hin & Hd & Hb). exists flags. split; [|exact Hb].
      apply (resolve_all_In sockets l Hl). exists socket.
      now rewrite <- list_elem_of_In. }
  split; [|split].
  - exact (Hbit 0 ltac:(lia)).
  - exact (Hbit 1 ltac:(lia)).
  - exact (Hbit 2 ltac:(lia)).
Qed.

Lemma descriptor_lists_membership_witness :
  _get_descriptors [(IntFd 3, 3); (HasFileno (Some 4), 2);
                    (GreenSocket (Done 5), 1); (IntFd 6, 0)]
    = Ok ([3; 5], [3; 4], []) /\
  3 ∈ [3; 5] /\ ~ 4 ∈ [3; 5].
Proof.
  pose (socks := [(IntFd 3, 3); (HasFileno (Some 4), 2);
                  (GreenSocket (Done 5), 1); (IntFd 6, 0)]).
  destruct (descriptor_lists_membership socks [3; 5] [3; 4] [] eq_refl 3)
    as ((_ & H3) & _).
  destruct (descriptor_lists_membership socks [3; 5] [3; 4] [] eq_refl 4)
    as ((H4 & _) & _).
  split; [reflexivity|]. split.
  - apply H3. exists (IntFd 3), 3. repeat split. apply list_elem_of_here.
  - intros Hin. apply H4 in Hin as (socket & flags & Hin & Hd & Hb).
    unfold socks in Hin. apply list_elem_of_In in Hin. cbn in Hin.
    destruct Hin as [[= <- <-]|[[= <- <-]|[[= <- <-]|[[= <- <-]|[]]]]];
      discriminate.
Defined.

Lemma resolve_all_first_error (pre : list (item * Z)) socket flags post e :
  Forall (fun p => exists fd, descriptor p.1 = Ok fd) pre ->
  descriptor socket = Err e ->
  resolve_all (pre ++ (socket, flags) :: post) = Err e.
Proof.
  intros Hpre He. induction Hpre as [|[sk fl] pre [fd Hfd] _ IH]; cbn.
  - now rewrite He.
  - cbn [fst] in Hfd. now rewrite Hfd, IH.
Qed.

Lemma resolve_all_error (items : list (item * Z)) e :
  resolve_all items = Err e ->
  exists pre socket flags post,
    items = pre ++ (socket, flags) :: post /\
    Forall (fun p => exists fd, descriptor p.1 = Ok fd) pre /\
    descriptor socket = Err e.
Proof.
  induction items as [|[socket flags] items IH]; [discriminate|].
  cbn [resolve_all]. destruct (descriptor socket) as [fd|e'] eqn:Hd.
  - destruct (resolve_all items) as [l|e'] eqn:Hr; [discriminate|].
    intros [= ->]. destruct (IH eq_refl) as (pre & sk & fl & post & -> & Hpre & Hsk).
    exists ((socket, flags) :: pre), sk, fl, post. repeat split; [|assumption].
    constructor; [now exists fd | assumption].
  - intros [= ->]. exists [], socket, flags, items. now repeat split.
Qed.

Lemma descriptor_error_kind (socket : item) (e : exn) :
  descriptor socket = Err e ->
  match e with
  | ZMQError _ _ => exists fd, socket = GreenSocket fd
  | ValueError _ => socket = HasFileno None
  | TypeError _ => socket = Other
  | _ => False
  end.
Proof.
  destruct socket as [[fd|errno msg]|fd|[fd|]|]; cbn; intros [= <-]; eauto.
Qed.

(** X12. [_get_descriptors] fails exactly when some registered item does not
    resolve, and then with the error of the first such item in registration
    order: the [ZMQError] of a green socket whose FD option cannot be read,
    a [ValueError] for an object whose [fileno()] gives no integer, a
    [TypeError] for an item that is neither a green socket, nor an int, nor
    has [fileno]; items after it are not looked at. *)
Theorem get_descriptors_first_error (sockets : list (item * Z)) (e : exn) :
  _get_descriptors sockets = Err e <->
  exists pre socket flags post,
    sockets = pre ++ (socket, flags) :: post /\
    Forall (fun p => exists fd, descriptor p.1 = Ok fd) pre /\
    descriptor socket = Err e /\
    match e with
    | ZMQError _ _ => exists fd, socket = GreenSocket fd
    | ValueError _ => socket = HasFileno None
    | TypeError _ => socket = Other
    | _ => False
    end.
Proof.
  rewrite get_descriptors_resolve. split.
  - destruct (resolve_all sockets) as [l|e'] eqn:Hr; [discriminate|].
    intros [= ->].
    destruct (resolve_all_error sockets e Hr) as (pre & sk & fl & post & H1 & H2 & H3).
    exists pre, sk, fl, post. repeat split; try assumption.
    now apply descriptor_error_kind.
  - intros (pre & sk & fl & post & -> & Hpre & Hsk & _).
    now rewrite (resolve_all_first_error pre sk fl post e Hpre Hsk).
Qed.

Lemma get_descriptors_first_error_witness :
  _get_descriptors [(IntFd 3, POLLIN); (Other, POLLIN); (HasFileno None, POLLIN)]
    = Err (TypeError
             "Socket must be a 0MQ socket, an integer fd or have a fileno() method").
Proof.
  apply get_descriptors_first_error.
  exists [(IntFd 3, POLLIN)], Other, POLLIN, [(HasFileno None, POLLIN)].
  repeat split. constructor; [now exists 3 | constructor].
Defined.

(** ** poll: the loop at work *)

Lemma poll_unfold socks timeout fresh p rest t :
  normalize timeout = Ok t ->
  poll socks timeout fresh p rest =
    let tout := if 0 <? t then Some fresh else None in
    let '(tr, o) := poll_loop socks t None p rest in
    let o' :=
      match o with
      | Raised (Timeout t') =>
          match tout with
          | None => Raised (UnboundLocalError "tout")
          | Some mine =>
              if bool_decide (t' = mine) then Returned [] else Raised (Timeout t')
          end
      | _ => o
      end in
    (match tout with Some x => [TimerStart x t] | None => [] end
       ++ tr
       ++ match tout with
          | Some x => if exited o' then [TimerCancel x] else []
          | None => []
          end, o').
Proof. intros H. unfold poll. now rewrite H. Qed.

Lemma normalize_range timeout t : normalize timeout = Ok t -> t = -1 \/ 0 <= t.
Proof.
  unfold normalize. destruct (int _) as [z|e]; [|discriminate].
  intros [= <-]. destruct (Z.ltb_spec z 0); [now left | now right].
Qed.

Lemma poll_loop_wakeups socks t (l : lists) events :
  _get_descriptors socks = Ok l -> t <> 0 -> events <> [] ->
  forall n d, d = None \/ d = Some l ->
    (poll_loop socks t d (first_poll n events) (wakeups n events)).2
      = Returned events /\
    length (List.filter is_native_poll
              (poll_loop socks t d (first_poll n events) (wakeups n events)).1) = S n /\
    length (List.filter is_select
              (poll_loop socks t d (first_poll n events) (wakeups n events)).1) = n.
Proof.
  intros Hl Ht Hev. destruct l as [[rl wl] xl].
  assert (Hz : (t =? 0) = false) by now apply Z.eqb_neq.
  induction n as [|n IH]; intros d Hd.
  - cbn [first_poll wakeups poll_loop].
    rewrite bool_decide_eq_false_2 by assumption. now cbn.
  - cbn [first_poll wakeups poll_loop].
    rewrite bool_decide_eq_true_2 by reflexivity. rewrite Hz. cbn [negb orb].
    destruct (IH (Some (rl, wl, xl)) ltac:(now right)) as (IHo & IHp & IHs).
    assert (Hstep : forall tr1 : list pevent,
              List.filter is_native_poll tr1 = [] ->
              List.filter is_select tr1 = [] ->
              let res :=
                let '(tr', o) := poll_loop socks t (Some (rl, wl, xl))
                                   (first_poll n events) (wakeups n events) in
                ((NativePoll 0 :: tr1 ++ [Select rl wl xl]) ++ tr', o) in
              res.2 = Returned events /\
              length (List.filter is_native_poll res.1) = S (S n) /\
              length (List.filter is_select res.1) = S n).
    { intros tr1 H1 H2. cbn zeta.
      destruct (poll_loop socks t (Some (rl, wl, xl)) (first_poll n events)
                  (wakeups n events)) as [tr' o].
      cbn [fst snd] in *. split; [exact IHo|].
      cbn [app List.filter is_native_poll is_select].
      rewrite !List.filter_app, H1, H2. cbn [List.filter is_native_poll is_select app length].
      now rewrite IHp, IHs. }
    destruct Hd as [->| ->].
    + cbn [unset]. rewrite Hl. now apply (Hstep [GetDescriptors]).
    + destruct (unset (Some (rl, wl, xl))).
      * rewrite Hl. now apply (Hstep [GetDescriptors]).
      * now apply (Hstep []).
Qed.

(** X13. A poll with a timeout other than 0 whose native poll finds nothing
    [n] times, each wait on the descriptors being ended by activity, returns
    the events that the native poll then reports, after exactly [n + 1]
    native polls and [n] waits: it neither returns early with nothing nor
    waits again once events are there.  With a positive timeout the timer is
    cancelled last. *)
Theorem poll_returns_first_events socks timeout fresh (l : lists) events (n : nat) t :
  normalize timeout = Ok t -> t <> 0 ->
  _get_descriptors socks = Ok l ->
  events <> [] ->
  let res := poll socks timeout fresh (first_poll n events) (wakeups n events) in
  res.2 = Returned events /\
  length (List.filter is_native_poll res.1) = S n /\
  length (List.filter is_select res.1) = n /\
  (0 < t -> last res.1 = Some (TimerCancel fresh)).
Proof.
  intros Hn Ht Hl Hev. cbn zeta. rewrite (poll_unfold _ _ _ _ _ _ Hn).
  destruct (poll_loop_wakeups socks t l events Hl Ht Hev n None ltac:(now left))
    as (Ho & Hp & Hs).
  destruct (poll_loop socks t None (first_poll n events) (wakeups n events))
    as [tr o]. cbn [fst snd] in *. subst o. cbn [exited].
  destruct (0 <? t) eqn:E; cbn [fst snd].
  - rewrite !List.filter_app. cbn [List.filter is_native_poll is_select app].
    rewrite !app_nil_r, Hp, Hs. repeat split.
    intros _. now rewrite last_cons, last_snoc.
  - rewrite app_nil_r. cbn [app]. repeat split; try assumption.
    intros Hpos. apply Z.ltb_ge in E. lia.
Qed.

Lemma poll_returns_first_events_witness :
  (poll [(IntFd 3, POLLIN)] (Some (PyInt 250)) 5%nat
     (first_poll 2 [(0%nat, POLLIN)]) (wakeups 2 [(0%nat, POLLIN)])).2
  = Returned [(0%nat, POLLIN)].
Proof.
  refine (proj1 (poll_returns_first_events [(IntFd 3, POLLIN)] (Some (PyInt 250))
                   5%nat ([3], [], []) [(0%nat, POLLIN)] 2 250
                   eq_refl _ eq_refl _)); discriminate.
Defined.

Lemma poll_loop_select_failed socks t (l : lists) errno strerror p' rest' :
  _get_descriptors socks = Ok l -> t <> 0 ->
  forall n d, d = None \/ d = Some l ->
    let res := poll_loop socks t d (Done [])
                 (repeat (Activity, Done []) n
                    ++ (SelectFailed errno strerror, p') :: rest') in
    res.2 = Raised (ZMQError errno (Some strerror)) /\
    length (List.filter is_native_poll res.1) = S n.
Proof.
  intros Hl Ht. destruct l as [[rl wl] xl].
  assert (Hz : (t =? 0) = false) by now apply Z.eqb_neq.
  induction n as [|n IH]; intros d Hd; cbn zeta; cbn [repeat app poll_loop];
    rewrite bool_decide_eq_true_2 by reflexivity; rewrite Hz; cbn [negb orb].
  - destruct Hd as [->| ->].
    + cbn [unset]. rewrite Hl. split; reflexivity.
    + destruct (unset (Some (rl, wl, xl))); [rewrite Hl|]; split; reflexivity.
  - destruct (IH (Some (rl, wl, xl)) ltac:(now right)) as (IHo & IHp).
    assert (Hstep : forall tr1 : list pevent,
              List.filter is_native_poll tr1 = [] ->
              let res :=
                let '(tr', o) :=
                  poll_loop socks t (Some (rl, wl, xl)) (Done [])
                    (repeat (Activity, Done []) n
                       ++ (SelectFailed errno strerror, p') :: rest') in
                ((NativePoll 0 :: tr1 ++ [Select rl wl xl]) ++ tr', o) in
              res.2 = Raised (ZMQError errno (Some strerror)) /\
              length (List.filter is_native_poll res.1) = S (S n)).
    { intros tr1 H1. cbn zeta.
      destruct (poll_loop socks t (Some (rl, wl, xl)) (Done []) _) as [tr' o].
      cbn [fst snd] in *. split; [exact IHo|].
      cbn [app List.filter is_native_poll].
      rewrite !List.filter_app, H1. cbn [List.filter is_native_poll app length].
      now rewrite IHp. }
    destruct Hd as [->| ->].
    + cbn [unset]. rewrite Hl. now apply (Hstep [GetDescriptors]).
    + destruct (unset (Some (rl, wl, xl))).
      * rewrite Hl. now apply (Hstep [GetDescriptors]).
      * now apply (Hstep []).
Qed.

(** X14. When a wait on the descriptors fails with an OS error, after any
    number of rounds that found nothing, poll raises a [ZMQError] carrying
    the same errno and message: the native poll is not asked again, and with
    a positive timeout the timer is cancelled last. *)
Theorem select_error_becomes_zmq_error socks timeout fresh (l : lists) t
    (n : nat) errno strerror p' rest' :
  normalize timeout = Ok t -> t <> 0 ->
  _get_descriptors socks = Ok l ->
  let res := poll socks timeout fresh (Done [])
               (repeat (Activity, Done []) n
                  ++ (SelectFailed errno strerror, p') :: rest') in
  res.2 = Raised (ZMQError errno (Some strerror)) /\
  length (List.filter is_native_poll res.1) = S n /\
  (0 < t -> last res.1 = Some (TimerCancel fresh)).
Proof.
  intros Hn Ht Hl. cbn zeta. rewrite (poll_unfold _ _ _ _ _ _ Hn).
  destruct (poll_loop_select_failed socks t l errno strerror p' rest' Hl Ht n None
              ltac:(now left)) as (Ho & Hp).
  destruct (poll_loop socks t None (Done []) _) as [tr o].
  cbn [fst snd] in *. subst o. cbn [exited].
  destruct (0 <? t) eqn:E; cbn [fst snd].
  - rewrite !List.filter_app. cbn [List.filter is_native_poll app].
    rewrite !app_nil_r, Hp. repeat split.
    intros _. now rewrite last_cons, last_snoc.
  - rewrite app_nil_r. cbn [app]. repeat split; try assumption.
    intros Hpos. apply Z.ltb_ge in E. lia.
Qed.

Lemma select_error_becomes_zmq_error_witness :
  (poll [(IntFd 3, POLLIN)] None 5%nat (Done [])
     [(Activity, Done []); (SelectFailed 9 "Bad file descriptor", Done [])]).2
  = Raised (ZMQError 9 (Some "Bad file descriptor")).
Proof.
  refine (proj1 (select_error_becomes_zmq_error [(IntFd 3, POLLIN)] None 5%nat
                   ([3], [], []) (-1) 1 9 "Bad file descriptor" (Done []) []
                   eq_refl _ eq_refl)); discriminate.
Defined.

(** ** poll: the descriptor lists are computed lazily *)






(** ** poll: an item that cannot be resolved *)

Lemma get_descriptors_error_not_timeout socks e :
  _get_descriptors socks = Err e -> forall x, e <> Timeout x.
Proof.
  rewrite get_descriptors_resolve.
  destruct (resolve_all socks) as [l|e'] eqn:Hr; [discriminate|].
  intros [= ->] x ->.
  destruct (resolve_all_error socks _ Hr) as (pre & sk & fl & post & _ & _ & Hsk).
  exact (descriptor_error_kind sk _ Hsk).
Qed.

(** X16. A registered item that cannot be resolved to a descriptor is
    found only when poll has to wait: if the first native poll reports
    nothing and the timeout is not 0, poll raises the error of
    [_get_descriptors] right after that native poll, before any wait on the
    descriptors, cancelling the timer it started; but with the same
    registration poll returns normally when the native poll reports events,
    or when the timeout is 0. *)
Theorem unresolvable_item_found_before_waiting socks timeout fresh e t :
  _get_descriptors socks = Err e ->
  normalize timeout = Ok t ->
  (t <> 0 -> forall rest,
     poll socks timeout fresh (Done []) rest =
       ((if 0 <? t then [TimerStart fresh t] else [])
          ++ [NativePoll 0; GetDescriptors]
          ++ (if 0 <? t then [TimerCancel fresh] else []),
        Raised e)) /\
  (forall events rest, events <> [] ->
     (poll socks timeout fresh (Done events) rest).2 = Returned events) /\
  (t = 0 -> forall p rest, (poll socks timeout fresh p rest).2 = answer p).
Proof.
  intros He Hn. pose proof (get_descriptors_error_not_timeout socks e He) as Hnt.
  split; [|split].
  - intros Ht rest. rewrite (poll_unfold _ _ _ _ _ _ Hn).
    assert (Hz : (t =? 0) = false) by now apply Z.eqb_neq.
    assert (Hloop : poll_loop socks t None (Done []) rest
                    = ([NativePoll 0; GetDescriptors], Raised e)).
    { destruct rest; cbn [poll_loop unset];
        rewrite bool_decide_eq_true_2 by reflexivity; rewrite Hz, He; reflexivity. }
    rewrite Hloop. cbn zeta.
    assert (Ho : match e with
                 | Timeout t' =>
                     match (if 0 <? t then Some fresh else None) with
                     | None => Raised (UnboundLocalError "tout")
                     | Some mine =>
                         if bool_decide (t' = mine) then Returned []
                         else Raised (Timeout t')
                     end
                 | _ => @Raised ready e
                 end = Raised e).
    { destruct e; try reflexivity. now destruct (Hnt t0). }
    rewrite Ho. cbn [exited]. now destruct (0 <? t).
  - intros events rest Hev. rewrite (poll_unfold _ _ _ _ _ _ Hn).
    assert (Hloop : poll_loop socks t None (Done events) rest
                    = ([NativePoll 0], Returned events)).
    { destruct rest; cbn [poll_loop];
        rewrite bool_decide_eq_false_2 by assumption; reflexivity. }
    rewrite Hloop. reflexivity.
  - intros -> p rest. now rewrite (poll_zero socks timeout fresh p rest Hn).
Qed.

Lemma unresolvable_item_found_before_waiting_witness :
  poll [(IntFd 3, POLLIN); (Other, POLLIN)] (Some (PyInt 250)) 5%nat (Done []) []
    = ([TimerStart 5%nat 250; NativePoll 0; GetDescriptors; TimerCancel 5%nat],
       Raised (TypeError
         "Socket must be a 0MQ socket, an integer fd or have a fileno() method")) /\
  (poll [(IntFd 3, POLLIN); (Other, POLLIN)] (Some (PyInt 250)) 5%nat
     (Done [(0%nat, POLLIN)]) []).2 = Returned [(0%nat, POLLIN)].
Proof.
  destruct (unresolvable_item_found_before_waiting
              [(IntFd 3, POLLIN); (Other, POLLIN)] (Some (PyInt 250)) 5%nat
              _ 250 eq_refl eq_refl) as (H1 & H2 & _).
  split.
  - apply H1. discriminate.
  - apply H2. discriminate.
Defined.

(** ** poll: a timeout that is no number of milliseconds *)

(** X17. A timeout that [int] cannot convert (a float NaN or infinity, and
    nothing else among ints and floats) makes poll raise the error of the
    conversion at once: no timer is started and the native poll is not
    called.  Every other timeout is normalized, to -1 or to a non-negative
    integer. *)
Theorem unconvertible_timeout_raises_first socks (x : pynum) fresh p rest :
  ((exists e, int x = Err e) <->
     x = PyFloat S754_nan \/ exists sg, x = PyFloat (S754_infinity sg)) /\
  (forall e, int x = Err e ->
     poll socks (Some x) fresh p rest = ([], Raised e)) /\
  (forall z, int x = Ok z ->
     exists t, normalize (Some x) = Ok t /\ (t = -1 \/ 0 <= t)).
Proof.
  split; [|split].
  - split.
    + intros [e He]. destruct x as [z|[sg|sg| |sg m ex]]; try discriminate.
      * right. now exists sg.
      * now left.
    + intros [->|[sg ->]]; eexists; reflexivity.
  - intros e He. unfold poll, normalize. now rewrite He.
  - intros z Hz.
    destruct (normalize (Some x)) as [t|e] eqn:Hn.
    + exists t. split; [reflexivity|]. now apply (normalize_range (Some x)).
    + unfold normalize in Hn. rewrite Hz in Hn. discriminate.
Qed.

Lemma unconvertible_timeout_raises_first_witness :
  poll [(IntFd 3, POLLIN)] (Some (PyFloat (S754_infinity false))) 5%nat
       (Done [(0%nat, POLLIN)]) []
    = ([], Raised OverflowError).
Proof.
  exact (proj1 (proj2 (unconvertible_timeout_raises_first [(IntFd 3, POLLIN)]
                         (PyFloat (S754_infinity false)) 5%nat
                         (Done [(0%nat, POLLIN)]) []))
           OverflowError eq_refl).
Defined.

(** ** poll: its timer *)

Lemma poll_trace_shape socks timeout fresh p rest t :
  normalize timeout = Ok t ->
  exists tr cancel,
    forallb (fun e => negb (is_timer_event e)) tr = true /\
    (cancel = [] \/ (cancel = [TimerCancel fresh] /\ 0 < t)) /\
    (poll socks timeout fresh p rest).1 =
      (if 0 <? t then [TimerStart fresh t] else []) ++ tr ++ cancel.
Proof.
  intros Hn. rewrite (poll_unfold _ _ _ _ _ _ Hn).
  pose proof (poll_loop_no_timer socks t rest None p) as Hnt.
  destruct (poll_loop socks t None p rest) as [tr o]. cbn [fst] in *.
  exists tr. destruct (Z.ltb_spec 0 t); cbn [fst].
  - destruct (exited _).
    + exists [TimerCancel fresh]. repeat split; [assumption | now right].
    + exists []. repeat split; [assumption | now left].
  - exists []. repeat split; [assumption | now left].
Qed.

(** X18. poll starts at most one timer, its own, always with a positive
    delay, the normalized timeout; and the only timer it ever cancels is one
    it has started.  With a timeout that is missing, negative or 0 it
    touches no timer at all. *)
Theorem poll_timer_discipline socks timeout fresh p rest :
  let tr := (poll socks timeout fresh p rest).1 in
  (length (List.filter is_timer_start tr) <= 1)%nat /\
  (forall x ms, TimerStart x ms ∈ tr ->
     x = fresh /\ 0 < ms /\ normalize timeout = Ok ms) /\
  (forall x, TimerCancel x ∈ tr -> exists ms, TimerStart x ms ∈ tr) /\
  (forall t, normalize timeout = Ok t -> t <= 0 ->
     forallb (fun e => negb (is_timer_event e)) tr = true).
Proof.
  cbn zeta. destruct (normalize timeout) as [t|e] eqn:Hn.
  - destruct (poll_trace_shape socks timeout fresh p rest t Hn)
      as (tr & cancel & Htr & Hcancel & ->).
    assert (Hfs : List.filter is_timer_start tr = []).
    { clear -Htr. induction tr as [|a tr IH]; [reflexivity|].
      cbn [forallb] in Htr. apply andb_prop in Htr as [Ha Htr].
      cbn [List.filter]. destruct a; try discriminate; now apply IH. }
    split; [|split; [|split]].
    + rewrite !List.filter_app, Hfs.
      destruct Hcancel as [->|[-> _]], (0 <? t); cbn; lia.
    + intros x ms Hin. apply elem_of_app in Hin as [Hin|Hin].
      * destruct (Z.ltb_spec 0 t); [|now apply elem_of_nil in Hin].
        apply list_elem_of_singleton in Hin. injection Hin as -> ->. now repeat split.
      * apply elem_of_app in Hin as [Hin|Hin].
        -- now apply (timer_event_not_in (TimerStart x ms)) in Hin.
        -- destruct Hcancel as [->|[-> _]].
           ++ now apply elem_of_nil in Hin.
           ++ apply list_elem_of_singleton in Hin. discriminate.
    + intros x Hin. apply elem_of_app in Hin as [Hin|Hin].
      * destruct (0 <? t); [|now apply elem_of_nil in Hin].
        apply list_elem_of_singleton in Hin. discriminate.
      * apply elem_of_app in Hin as [Hin|Hin].
        -- now apply (timer_event_not_in (TimerCancel x)) in Hin.
        -- destruct Hcancel as [->|[-> Hpos]].
           ++ now apply elem_of_nil in Hin.
           ++ apply list_elem_of_singleton in Hin. injection Hin as ->.
              exists t. apply elem_of_app. left.
              destruct (Z.ltb_spec 0 t); [apply list_elem_of_here | lia].
    + intros t' [= <-] Hle.
      destruct (Z.ltb_spec 0 t); [lia|].
      destruct Hcancel as [->|[_ Hpos]]; [|lia].
      cbn [app]. now rewrite app_nil_r.
  - unfold poll. rewrite Hn. cbn [fst].
    split; [cbn; lia|]. split; [|split].
    + intros x ms Hin. now apply elem_of_nil in Hin.
    + intros x Hin. now apply elem_of_nil in Hin.
    + discriminate.
Qed.

Lemma poll_timer_discipline_witness :
  forallb (fun e => negb (is_timer_event e))
    (poll [(IntFd 3, POLLIN)] (Some (PyInt (-7))) 5%nat (Done [])
       [(Activity, Done [(0%nat, POLLIN)])]).1 = true.
Proof.
  refine (proj2 (proj2 (proj2 (poll_timer_discipline [(IntFd 3, POLLIN)]
            (Some (PyInt (-7))) 5%nat (Done []) [(Activity, Done [(0%nat, POLLIN)])])))
            (-1) eq_refl _).
  discriminate.
Defined.

(** ** A greenlet that starts to wait wakes the others *)

Lemma lookup_replace_old (d : direction) (s : _Socket.t) (l : loc) :
  (l < length (cells s))%nat -> cells (replace d s).1 !! l = cells s !! l.
Proof.
  intros H. unfold replace, alloc. destruct d; cbn [fst cells];
    now rewrite lookup_app_l.
Qed.

Lemma length_replace (d : direction) (s : _Socket.t) :
  length (cells (replace d s).1) = S (length (cells s)).
Proof.
  unfold replace, alloc. destruct d; cbn [fst cells];
    rewrite length_app; cbn; lia.
Qed.

Lemma woken_by_rewait (d0 d : direction) (evs : list hub_event) (s : _Socket.t) :
  wf s ->
  (get (length (cells s)) (Rewait d :: evs) (replace d0 s).1).2 = Returned tt.
Proof.
  intros Hwf.
  destruct (replace_fresh d0 s) as (_ & Hattr & Hnew).
  pose proof (wf_replace d0 s Hwf) as Hwf1.
  rewrite get_pending_cons by assumption. cbn [hub_step].
  destruct (notify_cells _ Hwf1) as [Hr Hw].
  assert (Hv : cells (__notify_waiters (replace d0 s).1).2 !! length (cells s)
               = Some Value)
    by (destruct d0; cbn [attr] in Hattr; rewrite Hattr in *; assumption).
  assert (Hlt : (length (cells s) < length (cells (__notify_waiters (replace d0 s).1).2))%nat)
    by now apply lookup_lt_Some in Hv.
  rewrite <- (lookup_replace_old d _ _ Hlt) in Hv.
  now rewrite (get_value _ _ _ Hv).
Qed.

(** X19. A greenlet whose send or recv meets EAGAIN notifies before it
    starts to wait, for whichever direction: a greenlet already waiting on
    the socket, for the same direction or for the other, is woken at that
    moment, before the attribute is replaced, and goes back to its native
    call.  So a sender that was waiting returns the answer of its next
    native send as soon as a second greenlet starts to wait. *)
Theorem starting_a_wait_wakes_the_waiters (s : _Socket.t) :
  wf s ->
  (forall d evs, (_wait_write (Rewait d :: evs) s).2 = Returned tt) /\
  (forall d evs, (_wait_read (Rewait d :: evs) s).2 = Returned tt) /\
  (forall data flags copy track msg d evs v,
     truthy (Z.land flags NOBLOCK) = false ->
     (send data flags copy track (Fail EAGAIN msg) [(Rewait d :: evs, Done v)] s).2
       = Returned v) /\
  (forall flags copy track msg d evs v,
     truthy (Z.land flags NOBLOCK) = false ->
     (recv flags copy track (Fail EAGAIN msg) [(Rewait d :: evs, Done v)] s).2
       = Returned v).
Proof.
  intros Hwf. pose proof (wf_notify s Hwf) as Hwf1.
  split; [|split; [|split]].
  - intros d evs. rewrite wait_write_eq. cbn [snd]. now apply woken_by_rewait.
  - intros d evs. rewrite wait_read_eq. cbn [snd]. now apply woken_by_rewait.
  - intros data flags copy track msg d evs v Hf.
    unfold send. rewrite outcome_finally_notify. unfold __send. rewrite Hf.
    assert (Hw : _wait_write (Rewait d :: evs) (__notify_waiters s).2
                 = ((_wait_write (Rewait d :: evs) (__notify_waiters s).2).1.1,
                    (_wait_write (Rewait d :: evs) (__notify_waiters s).2).1.2,
                    Returned tt)).
    { rewrite wait_write_eq. cbn [fst snd].
      now rewrite (woken_by_rewait Writable d evs _ Hwf1). }
    now rewrite (send_loop_retry _ _ _ _ _ _ _ _ _ _ _ Hw).
  - intros flags copy track msg d evs v Hf.
    unfold recv. rewrite outcome_finally_notify. unfold __recv. rewrite Hf.
    assert (Hw : _wait_read (Rewait d :: evs) (__notify_waiters s).2
                 = ((_wait_read (Rewait d :: evs) (__notify_waiters s).2).1.1,
                    (_wait_read (Rewait d :: evs) (__notify_waiters s).2).1.2,
                    Returned tt)).
    { rewrite wait_read_eq. cbn [fst snd].
      now rewrite (woken_by_rewait Readable d evs _ Hwf1). }
    now rewrite (recv_loop_retry _ _ _ _ _ _ _ _ _ _ Hw).
Qed.

Lemma starting_a_wait_wakes_the_waiters_witness :
  (_wait_write [Rewait Writable] fresh_socket).2 = Returned tt /\
  (send (PyBytes "hi") 0 true false (Fail EAGAIN None)
     [([Rewait Writable], Done PyNone)] fresh_socket).2 = Returned PyNone.
Proof.
  assert (Hwf : wf fresh_socket) by (repeat split; simpl; [congruence | lia | lia]).
  destruct (starting_a_wait_wakes_the_waiters fresh_socket Hwf) as (H1 & _ & H2 & _).
  split; [apply H1 | now apply H2].
Defined.
